(** * csv2json_xlsx: the encoding pipeline and the record normaliser

    A shallow embedding of [2xlsx.js] and [2xlsx2.js].  JavaScript strings
    are sequences of UTF-16 code units, buffers are sequences of bytes,
    exceptions are explicit outcomes, and the libraries the scripts call
    (iconv-lite, jschardet, the engine's [Number] and [Date]) are
    interfaces the development is parametric in. *)

From Stdlib Require Import ZArith NArith Bool Ascii String SpecFloat.
From Stdlib Require Import Strings.Byte.
From stdpp Require Import base option list gmap strings.

Local Open Scope nat_scope.

(** ** JavaScript values *)

Module JS.

(** A string is its sequence of UTF-16 code units; a buffer its bytes. *)
Abbreviation jsstring := (list N).
Abbreviation buffer := (list byte).

(** [js "PA100"] is the JavaScript string with the same ASCII text. *)
Definition js (s : string) : jsstring :=
  List.map N_of_ascii (list_ascii_of_string s).

(** Errors the scripts raise or catch. *)
Inductive error : Type :=
| TypeError                           (* a method call on a non-string *)
| DetectorError                       (* jschardet.detect threw *)
| ReadError                           (* fs.readFileSync threw *)
| AllEncodingsFailed                  (* 2xlsx.js:106 *)
| ReadOrDecodeFailed (cause : error). (* 2xlsx.js:131 *)

(** The result of running a piece of code that may throw. *)
Inductive outcome (A : Type) : Type :=
| Returned (a : A)
| Thrown (e : error).
Arguments Returned {A} a.
Arguments Thrown {A} e.

(** A character class written with ranges, as in [[\x00-\x1F\x7F]]. *)
Definition inRanges (ranges : list (N * N)) (c : N) : bool :=
  existsb (fun r => (fst r <=? c)%N && (c <=? snd r)%N) ranges.

(** [s.match(/[cls]/g)]: [null] when nothing matches, otherwise the array
    of matches, one per matching code unit. *)
Definition matchAll (cls : N -> bool) (s : jsstring) : option (list N) :=
  match List.filter cls s with
  | [] => None
  | m :: ms => Some (m :: ms)
  end.

(** [s.replace(/[cls]/g, '')]. *)
Fixpoint removeAll (cls : N -> bool) (s : jsstring) : jsstring :=
  match s with
  | [] => []
  | c :: rest => if cls c then removeAll cls rest else c :: removeAll cls rest
  end.

(** WhiteSpace and LineTerminator of ECMAScript, the code units
    [String.prototype.trim] removes. *)
Definition isWhiteSpace (c : N) : bool :=
  inRanges [ (0x09, 0x0D); (0x20, 0x20); (0xA0, 0xA0); (0x1680, 0x1680);
             (0x2000, 0x200A); (0x2028, 0x2029); (0x202F, 0x202F);
             (0x205F, 0x205F); (0x3000, 0x3000); (0xFEFF, 0xFEFF) ]%N c.

Fixpoint trimStart (s : jsstring) : jsstring :=
  match s with
  | [] => []
  | c :: rest => if isWhiteSpace c then trimStart rest else s
  end.

Definition trimEnd (s : jsstring) : jsstring := rev (trimStart (rev s)).

Definition trim (s : jsstring) : jsstring := trimEnd (trimStart s).

(** What a cell of a record can hold. *)
Inductive jsvalue : Type :=
| VNull
| VNumber (num : spec_float)
| VDate (time : Z)
| VString (s : jsstring).

(** [isNaN(num)] on a number. *)
Definition isNaN (num : spec_float) : bool :=
  match num with
  | S754_nan => true
  | _ => false
  end.

(** Regular expressions over code units, matched by derivatives.  All the
    patterns of the scripts are anchored at both ends, so [test] asks for
    a match of the whole string. *)
Inductive regex : Type :=
| Never
| Empty
| Class (cls : N -> bool)
| Seq (r1 r2 : regex)
| Alt (r1 r2 : regex)
| Star (r : regex).

Fixpoint nullable (r : regex) : bool :=
  match r with
  | Never => false
  | Empty => true
  | Class _ => false
  | Seq r1 r2 => nullable r1 && nullable r2
  | Alt r1 r2 => nullable r1 || nullable r2
  | Star _ => true
  end.

Fixpoint derive (c : N) (r : regex) : regex :=
  match r with
  | Never => Never
  | Empty => Never
  | Class cls => if cls c then Empty else Never
  | Seq r1 r2 =>
      if nullable r1 then Alt (Seq (derive c r1) r2) (derive c r2)
      else Seq (derive c r1) r2
  | Alt r1 r2 => Alt (derive c r1) (derive c r2)
  | Star r1 => Seq (derive c r1) (Star r1)
  end.

Fixpoint test (r : regex) (s : jsstring) : bool :=
  match s with
  | [] => nullable r
  | c :: rest => test (derive c r) rest
  end.

(** The language of a pattern, to check the matcher against. *)
Inductive lang : regex -> jsstring -> Prop :=
| lang_empty : lang Empty []
| lang_class cls c : cls c = true -> lang (Class cls) [c]
| lang_seq r1 r2 s1 s2 : lang r1 s1 -> lang r2 s2 -> lang (Seq r1 r2) (s1 ++ s2)
| lang_alt_l r1 r2 s : lang r1 s -> lang (Alt r1 r2) s
| lang_alt_r r1 r2 s : lang r2 s -> lang (Alt r1 r2) s
| lang_star_nil r : lang (Star r) []
| lang_star_more r s1 s2 : lang r s1 -> lang (Star r) s2 -> lang (Star r) (s1 ++ s2).

Definition Chr (c : N) : regex := Class (N.eqb c).
Definition Opt (r : regex) : regex := Alt Empty r.
Definition Plus (r : regex) : regex := Seq r (Star r).
Definition Digit : regex := Class (inRanges [(0x30, 0x39)]%N).

(** [r{n}]. *)
Fixpoint Times (n : nat) (r : regex) : regex :=
  match n with
  | O => Empty
  | S n' => Seq r (Times n' r)
  end.

(** Concatenation of a list of patterns. *)
Definition Cat (rs : list regex) : regex := foldr Seq Empty rs.

End JS.
Import JS.

(** ** The libraries behind the scripts *)

(** iconv-lite.  [None] stands for a thrown exception ("Encoding not
    recognized", or a codec that rejects its input). *)
Class Codec : Type := {
  iconv_decode : buffer -> string -> option jsstring;
  iconv_encode : jsstring -> string -> option buffer
}.

(** What [jschardet.detect] hands back: [{encoding, confidence}], where
    [encoding] may be [null] and the confidence is a number. *)
Record detection : Type := {
  encoding : option string;
  confidence : spec_float
}.

(** jschardet: it may throw, return [null], or return a detection. *)
Class Detector : Type := {
  jschardet_detect : buffer -> outcome (option detection)
}.

(** Node's [fs] and [path]: [readFileSync] is [None] when it throws;
    [path_basename p ext] is [path.basename(p, ext)]. *)
Class FileSystem : Type := {
  readFileSync : string -> option buffer;
  path_join : string -> string -> string;
  path_basename : string -> string -> string
}.

(** The part of the engine [mapValues] relies on.  [Number] maps a string
    to a binary64 value; [Date_parse] is the time value (milliseconds
    since the epoch) of [new Date(s)], [None] for an Invalid Date. *)
Class Engine : Type := {
  Number : jsstring -> spec_float;
  Date_parse : jsstring -> option Z
}.

(** ** Encoding labels

    Labels are ASCII, so [toLowerCase] is ASCII lower-casing. *)

Module Label.

Local Open Scope string_scope.

Definition lowerAscii (a : ascii) : ascii :=
  let n := nat_of_ascii a in
  if ((65 <=? n) && (n <=? 90))%nat then ascii_of_nat (n + 32) else a.

Fixpoint toLowerCase (s : string) : string :=
  match s with
  | EmptyString => EmptyString
  | String a rest => String (lowerAscii a) (toLowerCase rest)
  end.

(** [hay.includes(needle)]. *)
Fixpoint includes (needle hay : string) : bool :=
  String.prefix needle hay ||
  match hay with
  | EmptyString => false
  | String _ rest => includes needle rest
  end.

(** [s.replace('-', '')]: a string pattern replaces the first occurrence
    only. *)
Fixpoint removeFirstHyphen (s : string) : string :=
  match s with
  | EmptyString => EmptyString
  | String a rest =>
      if Ascii.eqb a "-" then rest else String a (removeFirstHyphen rest)
  end.

(** Lookup in an object literal's own properties. *)
Fixpoint ownProperty (obj : list (string * string)) (key : string) : option string :=
  match obj with
  | [] => None
  | (k, v) :: rest => if String.eqb k key then Some v else ownProperty rest key
  end.

(** Keys every object literal inherits from [Object.prototype] whose
    spelling survives [toLowerCase]; what they hold is not a string. *)
Definition inheritedKey (key : string) : bool :=
  String.eqb key "constructor" || String.eqb key "__proto__".

End Label.

(** ** 2xlsx.js *)

Module Xlsx.

Import Label.

(** [buffer[i] === x]; an index past the end reads [undefined]. *)
Definition byteIs (buffer : buffer) (i : nat) (x : byte) : bool :=
  match buffer !! i with
  | Some y => Byte.eqb y x
  | None => false
  end.

(** [a.equals(b)] on buffers. *)
Fixpoint bufferEquals (a b : buffer) : bool :=
  match a, b with
  | [], [] => true
  | x :: a', y :: b' => Byte.eqb x y && bufferEquals a' b'
  | _, _ => false
  end.

(** The byte-order-mark tests of [detectFileEncoding] (lines 18-31). *)
Definition sniffBOM (buffer : buffer) : option string :=
  if 3 <=? length buffer then
    if byteIs buffer 0 xef && byteIs buffer 1 xbb && byteIs buffer 2 xbf then
      Some "utf8"%string
    else if byteIs buffer 0 xfe && byteIs buffer 1 xff then
      Some "utf16be"%string
    else if byteIs buffer 0 xff && byteIs buffer 1 xfe then
      Some "utf16le"%string
    else None
  else None.

(** The three signatures and what they stand for. *)
Definition signatures : list (buffer * string) :=
  [ ([xef; xbb; xbf], "utf8"); ([xfe; xff], "utf16be"); ([xff; xfe], "utf16le") ]%string.

Definition testEncodings : list string :=
  ["utf8"; "gbk"; "big5"; "shift-jis"]%string.

Definition encodingMap : list (string * string) :=
  [ ("gb2312", "gbk"); ("gb18030", "gbk"); ("windows-1252", "cp1252");
    ("iso-8859-1", "latin1"); ("ascii", "utf8"); ("utf-16le", "utf16le");
    ("utf-16be", "utf16be") ]%string.

(** Lines 53-73, from [result.encoding.toLowerCase()] to the final
    [encoding]: the table, then the "gb" and "utf" rules.  A label that
    names an inherited property makes [encoding.includes] fail. *)
Definition normalizeLabel (raw : string) : outcome string :=
  let encoding := toLowerCase raw in
  let mapped :=
    match ownProperty encodingMap encoding with
    | Some e => Returned e
    | None => if inheritedKey encoding then Thrown TypeError else Returned encoding
    end in
  match mapped with
  | Thrown e => Thrown e
  | Returned encoding =>
      if includes "gb" encoding || includes "gbk" encoding then
        Returned "gbk"%string
      else if includes "utf" encoding then
        Returned (toLowerCase (removeFirstHyphen encoding))
      else Returned encoding
  end.

(** The literal [0.85], that is 0x1.B333333333333p-1. *)
Definition confidenceThreshold : spec_float :=
  S754_finite false 7656119366529843 (-53).

(** [!result || result.confidence < 0.85]. *)
Definition lowConfidence (result : option detection) : bool :=
  match result with
  | None => true
  | Some d => SFltb (confidence d) confidenceThreshold
  end.

Definition fallbackEncodings : list string :=
  ["utf8"; "gbk"; "big5"; "shift-jis"; "cp1252"]%string.

Definition alternativeEncodings : list string :=
  ["gbk"; "big5"; "shift-jis"]%string.

(** The class [[\uFFFD\u0000-\u0008\u000B-\u000C\u000E-\u001F]]. *)
Definition invalidChar (c : N) : bool :=
  inRanges [ (0xFFFD, 0xFFFD); (0x00, 0x08); (0x0B, 0x0C); (0x0E, 0x1F) ]%N c.

(** A length as a number: the binary64 value nearest to it. *)
Definition binary64_of_nat (n : nat) : spec_float :=
  binary_normalize 53 1024 (Z.of_nat n) 0 false.

(** The literal [0.1], that is 0x1.999999999999Ap-4. *)
Definition binary64_tenth : spec_float :=
  S754_finite false 7205759403792794 (-56).

(** [invalidChars.length > content.length * 0.1], computed as the engine
    does: the product is rounded to the nearest binary64 value, ties to
    even, and then compared. *)
Definition exceedsThreshold (invalid total : nat) : bool :=
  SFltb (SFmul 53 1024 (binary64_of_nat total) binary64_tenth)
        (binary64_of_nat invalid).

(** How many code units of a text the class matches. *)
Definition invalidCount (content : jsstring) : nat :=
  length (List.filter invalidChar content).

Section Pipeline.

Context {codec : Codec} {detector : Detector}.

(** The round-trip test of lines 36-45; a codec exception skips the
    candidate. *)
Definition roundTrips (buffer : buffer) (enc : string) : bool :=
  match iconv_decode buffer enc with
  | None => false
  | Some decoded =>
      match iconv_encode decoded enc with
      | None => false
      | Some reEncoded => bufferEquals buffer reEncoded
      end
  end.

Fixpoint firstRoundTrip (buffer : buffer) (encs : list string) : option string :=
  match encs with
  | [] => None
  | enc :: rest =>
      if roundTrips buffer enc then Some enc else firstRoundTrip buffer rest
  end.

(** The body of [detectFileEncoding] once the file is read; every
    exception inside it is caught and answered with utf8. *)
Definition detectBufferEncoding (buffer : buffer) : string :=
  match jschardet_detect buffer with
  | Thrown _ => "utf8"%string
  | Returned result =>
      if lowConfidence result then
        match sniffBOM buffer with
        | Some enc => enc
        | None =>
            match firstRoundTrip buffer testEncodings with
            | Some enc => enc
            | None => "utf8"%string
            end
        end
      else
        match result ≫= encoding with
        | None => "utf8"%string          (* null.toLowerCase() throws *)
        | Some raw =>
            match normalizeLabel raw with
            | Returned enc => enc
            | Thrown _ => "utf8"%string
            end
        end
  end.

(** The loop over [fallbackEncodings] (lines 96-105). *)
Fixpoint tryFallbacks (buffer : buffer) (encoding : string)
    (encs : list string) : option jsstring :=
  match encs with
  | [] => None
  | fallbackEncoding :: rest =>
      if String.eqb fallbackEncoding encoding then
        tryFallbacks buffer encoding rest
      else
        match iconv_decode buffer fallbackEncoding with
        | Some content => Some content
        | None => tryFallbacks buffer encoding rest
        end
  end.

(** The loop over [alternativeEncodings] (lines 115-126). *)
Fixpoint tryAlternatives (buffer : buffer) (invalidChars : list N)
    (encs : list string) : option jsstring :=
  match encs with
  | [] => None
  | altEncoding :: rest =>
      match iconv_decode buffer altEncoding with
      | None => tryAlternatives buffer invalidChars rest
      | Some altContent =>
          match matchAll invalidChar altContent with
          | None => Some altContent
          | Some altInvalidChars =>
              if length altInvalidChars <? length invalidChars then
                Some altContent
              else tryAlternatives buffer invalidChars rest
          end
      end
  end.

(** The scan of the decoded text for mojibake (lines 109-129). *)
Definition scanDecoded (buffer : buffer) (content : jsstring) : outcome jsstring :=
  match matchAll invalidChar content with
  | Some invalidChars =>
      if exceedsThreshold (length invalidChars) (length content) then
        match tryAlternatives buffer invalidChars alternativeEncodings with
        | Some altContent => Returned altContent
        | None => Returned content
        end
      else Returned content
  | None => Returned content
  end.

(** The body of [readAndDecodeCSV] once the file is read: the first
    decode with its fallbacks (lines 90-107), then the scan.  The error
    of line 106 leaves through the [catch] of line 130, which wraps it. *)
Definition decodeBuffer (buffer : buffer) (encoding : string) : outcome jsstring :=
  match iconv_decode buffer encoding with
  | None =>
      match tryFallbacks buffer encoding fallbackEncodings with
      | Some content => Returned content
      | None => Thrown (ReadOrDecodeFailed AllEncodingsFailed)
      end
  | Some content => scanDecoded buffer content
  end.

(** *** Vocabulary for the statements about the pipeline *)

(** [enc] reproduces the buffer: decoding and encoding again both
    succeed and give back the same bytes. *)
Definition reproduces (buffer : buffer) (enc : string) : Prop :=
  exists decoded, iconv_decode buffer enc = Some decoded
                  /\ iconv_encode decoded enc = Some buffer.

(** [content] is the decoding under the first of [fallbackEncodings],
    [encoding] left out, that does not throw. *)
Definition firstFallback (buffer : buffer) (encoding : string)
    (content : jsstring) : Prop :=
  exists pre fb post,
    fallbackEncodings = pre ++ fb :: post
    /\ fb <> encoding
    /\ iconv_decode buffer fb = Some content
    /\ forall e, e ∈ pre -> e <> encoding -> iconv_decode buffer e = None.

(** Every fallback encoding other than [encoding] throws. *)
Definition noFallback (buffer : buffer) (encoding : string) : Prop :=
  forall e, e ∈ fallbackEncodings -> e <> encoding -> iconv_decode buffer e = None.

(** [altContent] is the decoding under the first of
    [alternativeEncodings] that has fewer than [n] invalid characters. *)
Definition firstBetterAlternative (buffer : buffer) (n : nat)
    (altContent : jsstring) : Prop :=
  exists pre alt post,
    alternativeEncodings = pre ++ alt :: post
    /\ iconv_decode buffer alt = Some altContent
    /\ invalidCount altContent < n
    /\ forall e t, e ∈ pre -> iconv_decode buffer e = Some t -> n <= invalidCount t.

(** No alternative encoding decodes with fewer than [n] invalid
    characters. *)
Definition noBetterAlternative (buffer : buffer) (n : nat) : Prop :=
  forall e t, e ∈ alternativeEncodings -> iconv_decode buffer e = Some t ->
              n <= invalidCount t.

(** The detector gave nothing to rely on: no result, or a confidence
    below 0.85. *)
Definition unsure (result : option detection) : Prop :=
  match result with
  | None => True
  | Some d => SFltb (confidence d) confidenceThreshold = true
  end.

(** The confidence of the detection is not below 0.85. *)
Definition confident (d : detection) : Prop :=
  SFltb (confidence d) confidenceThreshold = false.

(** The buffer has at least three bytes and begins with [signature]. *)
Definition marked (buffer signature : buffer) : Prop :=
  3 <= length buffer /\ signature `prefix_of` buffer.

Definition unmarked (buffer : buffer) : Prop :=
  forall signature enc, (signature, enc) ∈ signatures -> ~ marked buffer signature.

(** The priority chain of [detectFileEncoding]: which encoding is
    selected for a buffer, and on what ground. *)
Inductive selected (buffer : buffer) : string -> Prop :=
| selected_confident d raw enc :
    jschardet_detect buffer = Returned (Some d) ->
    confident d ->
    encoding d = Some raw ->
    normalizeLabel raw = Returned enc ->
    selected buffer enc
| selected_bom result signature enc :
    jschardet_detect buffer = Returned result ->
    unsure result ->
    (signature, enc) ∈ signatures ->
    marked buffer signature ->
    selected buffer enc
| selected_round_trip result pre enc post :
    jschardet_detect buffer = Returned result ->
    unsure result ->
    unmarked buffer ->
    testEncodings = pre ++ enc :: post ->
    reproduces buffer enc ->
    (forall e, e ∈ pre -> ~ reproduces buffer e) ->
    selected buffer enc
| selected_default result :
    jschardet_detect buffer = Returned result ->
    unsure result ->
    unmarked buffer ->
    (forall e, e ∈ testEncodings -> ~ reproduces buffer e) ->
    selected buffer "utf8"
| selected_detector_failed e :
    jschardet_detect buffer = Thrown e ->
    selected buffer "utf8"
| selected_label_missing d :
    jschardet_detect buffer = Returned (Some d) ->
    confident d ->
    encoding d = None ->
    selected buffer "utf8"
| selected_label_failed d raw e :
    jschardet_detect buffer = Returned (Some d) ->
    confident d ->
    encoding d = Some raw ->
    normalizeLabel raw = Thrown e ->
    selected buffer "utf8".

End Pipeline.

(** Counters of [processDirectory] (lines 263-268). *)
Record stats : Type := {
  success : nat;
  failed : nat;
  total : nat;
  failedFiles : list string
}.

(** Everything [convertCsvToExcel] does with the decoded text: parsing
    with csv-parser and writing the workbook.  [false] when it throws. *)
Class Sink : Type := {
  parseAndWrite : string -> jsstring -> string -> bool
}.

Section Files.

Context {codec : Codec} {detector : Detector} {fs : FileSystem} {sink : Sink}.

Definition detectFileEncoding (filePath : string) : string :=
  match readFileSync filePath with
  | None => "utf8"%string
  | Some buffer => detectBufferEncoding buffer
  end.

Definition readAndDecodeCSV (filePath encoding : string) : outcome jsstring :=
  match readFileSync filePath with
  | None => Thrown (ReadOrDecodeFailed ReadError)
  | Some buffer => decodeBuffer buffer encoding
  end.

(** [convertCsvToExcel]: every exception ends in [return false]. *)
Definition convertCsvToExcel (inputCsvPath outputExcelPath : string) : bool :=
  let encoding := detectFileEncoding inputCsvPath in
  match readAndDecodeCSV inputCsvPath encoding with
  | Thrown _ => false
  | Returned csvContent =>
      match csvContent with
      | [] => false
      | _ :: _ =>
          if length (trim csvContent) =? 0 then false
          else parseAndWrite inputCsvPath csvContent outputExcelPath
      end
  end.

(** One turn of the loop of [processDirectory] (lines 271-287). *)
Definition processFile (inputDir outputDir : string) (results : stats)
    (csvFile : string) : stats :=
  let inputPath := path_join inputDir csvFile in
  let outputPath :=
    path_join outputDir (path_basename csvFile ".csv" +:+ ".xlsx") in
  if convertCsvToExcel inputPath outputPath then
    {| success := S (success results); failed := failed results;
       total := total results; failedFiles := failedFiles results |}
  else
    {| success := success results; failed := S (failed results);
       total := total results;
       failedFiles := failedFiles results ++ [csvFile] |}.

(** The loop of [processDirectory] over [csvFiles], the names in the
    input directory that end in ".csv". *)
Definition processDirectory (inputDir outputDir : string)
    (csvFiles : list string) : stats :=
  fold_left (processFile inputDir outputDir) csvFiles
    {| success := 0; failed := 0; total := length csvFiles; failedFiles := [] |}.

End Files.

End Xlsx.

(** ** The record normaliser of 2xlsx.js *)

Module Normalizer.

(** [[\x00-\x1F\x7F]]. *)
Definition controlChar (c : N) : bool :=
  inRanges [ (0x00, 0x1F); (0x7F, 0x7F) ]%N c.

(** [/^-?\d*\.?\d+$/]. *)
Definition numberPattern : regex :=
  Cat [ Opt (Chr 0x2D); Star Digit; Opt (Chr 0x2E); Plus Digit ]%N.

(** [[-/]]. *)
Definition dateSeparator : regex := Class (fun c => (c =? 0x2D)%N || (c =? 0x2F)%N).

(** [\d{1,2}]. *)
Definition oneOrTwoDigits : regex := Seq Digit (Opt Digit).

(** The three date patterns, in the order of the array; the last one
    spells year, month and day with U+5E74, U+6708 and U+65E5. *)
Definition dateFormats : list regex :=
  [ Cat [ Times 4 Digit; dateSeparator; oneOrTwoDigits; dateSeparator; oneOrTwoDigits ];
    Cat [ oneOrTwoDigits; dateSeparator; oneOrTwoDigits; dateSeparator; Times 4 Digit ];
    Cat [ Times 4 Digit; Chr 0x5E74; oneOrTwoDigits; Chr 0x6708; oneOrTwoDigits;
          Chr 0x65E5 ]%N ].

(** [value.replace(/[\x00-\x1F\x7F]/g, '').trim()]. *)
Definition cleanValue (value : jsstring) : jsstring :=
  trim (removeAll controlChar value).

Section MapValues.

Context {engine : Engine}.

(** The date branch and the final [return value] (lines 174-186). *)
Definition dateOrString (value : jsstring) : jsvalue :=
  if existsb (fun format => test format value) dateFormats then
    match Date_parse value with
    | Some time => VDate time
    | None => VString value
    end
  else VString value.

(** The [mapValues] callback handed to csv-parser (lines 162-187). *)
Definition mapValues (header value : jsstring) : jsvalue :=
  match value with
  | [] => VNull
  | _ :: _ =>
      let value := cleanValue value in
      if test numberPattern value then
        let num := Number value in
        if negb (isNaN num) then VNumber num else dateOrString value
      else dateOrString value
  end.

(** The callback on a cell that already holds a value: only a string has
    a [replace] method, so anything else ends in a TypeError. *)
Definition mapValuesCell (header : jsstring) (v : jsvalue) : outcome jsvalue :=
  match v with
  | VString s => Returned (mapValues header s)
  | _ => Thrown TypeError
  end.

(** csv-parser passes every cell of a row through [mapValues], with the
    header of its column. *)
Definition mapRow (row : gmap (list N) (list N)) : gmap (list N) jsvalue :=
  map_imap (fun header value => Some (mapValues header value)) row.

End MapValues.

End Normalizer.

(** ** 2xlsx2.js *)

Module Xlsx2.

(** A record of the parser: an object with string keys. *)
Abbreviation jsrecord := (gmap (list N) jsvalue).

(** [config.allowedPatientIds]. *)
Definition allowedPatientIds : list jsstring := [ js "PA100" ].

(** [[\x00-\x09\x0B-\x1F\x7F]]. *)
Definition controlChar (c : N) : bool :=
  inRanges [ (0x00, 0x09); (0x0B, 0x1F); (0x7F, 0x7F) ]%N c.

(** The assignment inside [Object.keys(record).forEach] (lines 82-86):
    only strings are touched. *)
Definition cleanField (v : jsvalue) : jsvalue :=
  match v with
  | VString s => VString (trim (removeAll controlChar s))
  | _ => v
  end.

(** Truthiness of a cell, for [record.PATIENT_ID && ...]. *)
Definition truthy (v : jsvalue) : bool :=
  match v with
  | VNull => false
  | VNumber (S754_zero _) => false
  | VNumber S754_nan => false
  | VNumber _ => true
  | VDate _ => true
  | VString s => negb (bool_decide (s = []))
  end.

(** [ids.includes(v)] for an array of strings. *)
Definition includes (ids : list jsstring) (v : jsvalue) : bool :=
  match v with
  | VString s => bool_decide (s ∈ ids)
  | _ => false
  end.

(** The [on_record] hook (lines 79-95): clean every field in place, then
    keep the record only if its PATIENT_ID is on the allow-list. *)
Definition on_record (record : jsrecord) : option jsrecord :=
  let record := cleanField <$> record in
  match record !! js "PATIENT_ID" with
  | Some id =>
      if truthy id && includes allowedPatientIds id then Some record else None
  | None => None
  end.

(** [parseCSVContent] on the records the parser produced: those for which
    [on_record] answers [null] are left out. *)
Definition parseCSVContent (parsed : list jsrecord) : list jsrecord :=
  omap on_record parsed.

(** *** Detection, decoding and conversion (lines 30-167) *)

(** The literal [0.8], that is 0x1.999999999999Ap-1. *)
Definition confidenceThreshold : spec_float :=
  S754_finite false 7205759403792794 (-53).

(** [!result || result.confidence < 0.8]. *)
Definition lowConfidence (result : option detection) : bool :=
  match result with
  | None => true
  | Some d => SFltb (confidence d) confidenceThreshold
  end.

(** Lines 40-51: the label in lower case, then the three rules. *)
Definition labelEncoding (raw : string) : string :=
  let encoding := Label.toLowerCase raw in
  if (String.eqb encoding "ascii" || String.eqb encoding "utf-8")%bool then
    "utf8"%string
  else if (Label.includes "gb" encoding || String.eqb encoding "gbk")%bool then
    "gbk"%string
  else if String.eqb encoding "big5" then "big5"%string
  else encoding.

(** [content.replace(/\r\n/g, '\n')]: the text is scanned from the left,
    and a match starts after the end of the previous one. *)
Fixpoint replaceCRLF (content : jsstring) : jsstring :=
  match content with
  | [] => []
  | c :: rest =>
      match rest with
      | [] => [c]
      | c' :: rest' =>
          if ((c =? 0x0D) && (c' =? 0x0A))%N then 0x0A%N :: replaceCRLF rest'
          else c :: replaceCRLF rest
      end
  end.

(** The three replacements of [readAndDecodeCSV] (lines 63-66). *)
Definition preprocess (content : jsstring) : jsstring :=
  removeAll controlChar (removeAll (N.eqb 0) (replaceCRLF content)).

(** [value !== null && value !== '']. *)
Definition nonEmpty (value : jsvalue) : bool :=
  match value with
  | VNull => false
  | VString [] => false
  | _ => true
  end.

(** [Object.values(record).some(value => value !== null && value !== '')]. *)
Definition validRecord (record : jsrecord) : bool :=
  existsb nonEmpty (snd <$> map_to_list record).

(** csv-parse on a text: the records it builds, before [on_record] sees
    them; [None] when it reports an error. *)
Class Parser : Type := {
  csv_parse : jsstring -> option (list jsrecord)
}.

(** Building and writing the workbook (lines 122-155) from the path of
    the CSV file, the records and the path of the workbook; [false] when
    it throws. *)
Class Writer : Type := {
  writeWorkbook : string -> list jsrecord -> string -> bool
}.

Section Files.

Context {codec : Codec} {detector : Detector} {fs : FileSystem}
        {parser : Parser} {writer : Writer}.

(** The body of [detectFileEncoding] once the file is read; every
    exception inside it is caught and answered with gbk. *)
Definition detectBufferEncoding (buffer : buffer) : string :=
  match jschardet_detect buffer with
  | Thrown _ => "gbk"%string
  | Returned result =>
      if lowConfidence result then "gbk"%string
      else
        match result ≫= encoding with
        | None => "gbk"%string           (* null.toLowerCase() throws *)
        | Some raw => labelEncoding raw
        end
  end.

Definition detectFileEncoding (filePath : string) : string :=
  match readFileSync filePath with
  | None => "gbk"%string
  | Some buffer => detectBufferEncoding buffer
  end.

(** [readAndDecodeCSV]: [None] stands for the error of line 70. *)
Definition readAndDecodeCSV (filePath encoding : string) : option jsstring :=
  buffer ← readFileSync filePath;
  content ← iconv_decode buffer encoding;
  Some (preprocess content).

(** [convertCsvToExcel]: every exception ends in [return false]. *)
Definition convertCsvToExcel (inputCsvPath outputExcelPath : string) : bool :=
  let encoding := detectFileEncoding inputCsvPath in
  match readAndDecodeCSV inputCsvPath encoding with
  | None => false
  | Some csvContent =>
      match csv_parse csvContent with
      | None => false
      | Some parsed =>
          let records := parseCSVContent parsed in
          let validRecords := List.filter validRecord records in
          match validRecords with
          | [] => false
          | _ :: _ => writeWorkbook inputCsvPath validRecords outputExcelPath
          end
      end
  end.

End Files.

End Xlsx2.

(** ** Column widths (2xlsx.js lines 206-228, 2xlsx2.js lines 132-152) *)

Module Sheet.

(** A row of the sheet, as [Object.entries(row)] enumerates it. *)
Abbreviation row := (list (jsstring * jsvalue)).

(** [String(num)] and [String(date)] of the engine. *)
Class Formatter : Type := {
  String_number : spec_float -> jsstring;
  String_date : Z -> jsstring
}.

(** The numbers of the computation: lengths, and NaN. *)
Inductive width : Type :=
| Width (n : nat)
| NaN.

(** The object [columnWidths]: its own properties, in the order of their
    creation. *)
Abbreviation widths := (list (jsstring * width)).

(** The property names every object literal inherits from
    [Object.prototype]. *)
Definition prototypeKeys : list jsstring :=
  js <$> [ "constructor"; "__defineGetter__"; "__defineSetter__";
           "hasOwnProperty"; "__lookupGetter__"; "__lookupSetter__";
           "isPrototypeOf"; "propertyIsEnumerable"; "toString"; "valueOf";
           "__proto__"; "toLocaleString" ]%string.

Fixpoint own (columnWidths : widths) (key : jsstring) : option width :=
  match columnWidths with
  | [] => None
  | (k, w) :: rest => if bool_decide (k = key) then Some w else own rest key
  end.

(** [columnWidths[key] || 0], as a number: an own width that is [0] or
    NaN gives [0]; an inherited property is a function or an object,
    which [Math.max] turns into NaN. *)
Definition current (columnWidths : widths) (key : jsstring) : width :=
  match own columnWidths key with
  | Some (Width n) => Width n
  | Some NaN => Width 0
  | None => if bool_decide (key ∈ prototypeKeys) then NaN else Width 0
  end.

Fixpoint update (columnWidths : widths) (key : jsstring) (w : width) : widths :=
  match columnWidths with
  | [] => [(key, w)]
  | (k, v) :: rest =>
      if bool_decide (k = key) then (k, w) :: rest
      else (k, v) :: update rest key w
  end.

(** [columnWidths[key] = w] for a number [w]: the setter of [__proto__]
    ignores it; any other key becomes, or stays, an own property. *)
Definition assign (columnWidths : widths) (key : jsstring) (w : width) : widths :=
  if bool_decide (key = js "__proto__") then columnWidths
  else update columnWidths key w.

(** [Math.max(a, n)]. *)
Definition maxWidth (a : width) (n : nat) : width :=
  match a with
  | Width m => Width (Nat.max m n)
  | NaN => NaN
  end.

(** A decimal digit. *)
Definition digitValue (c : N) : option N :=
  if ((0x30 <=? c) && (c <=? 0x39))%N then Some (c - 0x30)%N else None.

Fixpoint decimal (acc : N) (s : jsstring) : option N :=
  match s with
  | [] => Some acc
  | c :: rest => d ← digitValue c; decimal (10 * acc + d)%N rest
  end.

(** A key that is an array index: the canonical decimal spelling of an
    integer from 0 to 2^32 - 2. *)
Definition arrayIndex (key : jsstring) : option N :=
  match key with
  | [] => None
  | c :: rest =>
      if ((c =? 0x30)%N && negb (bool_decide (rest = [])))%bool then None
      else n ← decimal 0 key; if (n <=? 4294967294)%N then Some n else None
  end.

(** Insertion of an indexed property at its place. *)
Fixpoint insertIndexed (i : N) (w : width) (sorted : list (N * width)) : list (N * width) :=
  match sorted with
  | [] => [(i, w)]
  | (j, v) :: rest =>
      if (i <? j)%N then (i, w) :: sorted else (j, v) :: insertIndexed i w rest
  end.

(** [Object.values(columnWidths)]: the properties whose keys are array
    indices come first, by ascending index, then the others in the order
    of their creation. *)
Definition Object_values (columnWidths : widths) : list width :=
  (foldr (fun kw sorted =>
            match arrayIndex kw.1 with
            | Some i => insertIndexed i kw.2 sorted
            | None => sorted
            end) [] columnWidths).*2
  ++ (List.filter (fun kw => bool_decide (arrayIndex kw.1 = None)) columnWidths).*2.

(** [Math.min(width + 2, 50)]. *)
Definition wch (w : width) : width :=
  match w with
  | Width n => Width (Nat.min (n + 2) 50)
  | NaN => NaN
  end.

Section Widths.

Context {formatter : Formatter}.

(** [String(value || '')]. *)
Definition cellText (value : jsvalue) : jsstring :=
  if Xlsx2.truthy value then
    match value with
    | VNull => []
    | VNumber num => String_number num
    | VDate time => String_date time
    | VString s => s
    end
  else [].

(** [Math.min(cellWidth, 50)]. *)
Definition cellWidth (value : jsvalue) : nat :=
  Nat.min (length (cellText value)) 50.

(** The loop over the header: [Object.keys(results[0] || {})]. *)
Definition headerWidths (results : list row) : widths :=
  match results with
  | [] => []
  | first :: _ =>
      fold_left (fun columnWidths key => assign columnWidths key (Width (length key)))
                first.*1 []
  end.

(** One entry of a row. *)
Definition entryWidths (columnWidths : widths) (entry : jsstring * jsvalue) : widths :=
  assign columnWidths entry.1
         (maxWidth (current columnWidths entry.1) (cellWidth entry.2)).

(** The loop over the sampled rows. *)
Definition columnWidths (results : list row) : widths :=
  let maxSampleRows := Nat.min 100 (length results) in
  fold_left (fun columnWidths row => fold_left entryWidths row columnWidths)
            (take maxSampleRows results) (headerWidths results).

(** [worksheet['!cols']], the [wch] of each entry. *)
Definition cols (results : list row) : list width :=
  wch <$> Object_values (columnWidths results).

(** The cells of column [key] in [rows], and the widest of them, each
    capped at 50. *)
Definition cellsOf (key : jsstring) (rows : list row) : list jsvalue :=
  snd <$> List.filter (fun entry => bool_decide (entry.1 = key)) (concat rows).

Definition widest (key : jsstring) (rows : list row) : nat :=
  list_max (cellWidth <$> cellsOf key rows).

End Widths.

End Sheet.

(** ** The loop over a directory (2xlsx.js lines 244-306, 2xlsx2.js
    lines 169-230) *)

Module Cli.

(** [fs.existsSync], [fs.mkdirSync] ([false] when it throws) and
    [fs.readdirSync] ([None] when it throws), as they answer when
    [processDirectory] calls them. *)
Class Directory : Type := {
  existsSync : string -> bool;
  mkdirSync : string -> bool;
  readdirSync : string -> option (list string)
}.

(** [s.endsWith(suffix)]. *)
Definition endsWith (suffix s : string) : bool :=
  let n := String.length s in
  let k := String.length suffix in
  (k <=? n) && String.eqb (substring (n - k) k s) suffix.

(** [file => file.toLowerCase().endsWith('.csv')].  Lower-casing also
    changes letters outside ASCII, but none into a character of ".csv",
    so the ASCII lower-casing of [Label] decides the same names. *)
Definition isCsvFile (file : string) : bool :=
  endsWith ".csv" (Label.toLowerCase file).

Section Loop.

Context {fs : FileSystem} {directory : Directory}.

(** The [convertCsvToExcel] of the script. *)
Variable convertCsvToExcel : string -> string -> bool.

(** One turn of the loop. *)
Definition processFile (inputDir outputDir : string) (results : Xlsx.stats)
    (csvFile : string) : Xlsx.stats :=
  let inputPath := path_join inputDir csvFile in
  let outputPath :=
    path_join outputDir (path_basename csvFile ".csv" +:+ ".xlsx") in
  if convertCsvToExcel inputPath outputPath then
    {| Xlsx.success := S (Xlsx.success results); Xlsx.failed := Xlsx.failed results;
       Xlsx.total := Xlsx.total results; Xlsx.failedFiles := Xlsx.failedFiles results |}
  else
    {| Xlsx.success := Xlsx.success results; Xlsx.failed := S (Xlsx.failed results);
       Xlsx.total := Xlsx.total results;
       Xlsx.failedFiles := Xlsx.failedFiles results ++ [csvFile] |}.

(** Whether the loop converts [csvFile]. *)
Definition converts (inputDir outputDir csvFile : string) : bool :=
  convertCsvToExcel (path_join inputDir csvFile)
    (path_join outputDir (path_basename csvFile ".csv" +:+ ".xlsx")).

(** [processDirectory]: the counters it prints at the end; [None] when
    it returns before, on an exception or for want of CSV files. *)
Definition processDirectory (inputDir outputDir : string) : option Xlsx.stats :=
  if existsSync outputDir || mkdirSync outputDir then
    match readdirSync inputDir with
    | None => None
    | Some files =>
        let csvFiles := List.filter isCsvFile files in
        if length csvFiles =? 0 then None
        else
          Some (fold_left (processFile inputDir outputDir) csvFiles
                  {| Xlsx.success := 0; Xlsx.failed := 0;
                     Xlsx.total := length csvFiles; Xlsx.failedFiles := [] |})
    end
  else None.

End Loop.

End Cli.

(** ** The CSV to JSON script (2xlsx2.js lines 244-450) *)

Module Json.

Import Xlsx2.

(** [buffer.toString('utf8')] of Node. *)
Class NodeBuffer : Type := {
  toString_utf8 : buffer -> jsstring
}.

(** [fs.writeFile] of the records as JSON; [false] when it fails. *)
Class JsonWriter : Type := {
  writeJson : string -> list jsrecord -> bool
}.

(** [config.outputDir]. *)
Definition outputDir : string := "./output".

(** The two replacements of [readCSVWithEncoding] (lines 342-344). *)
Definition preprocess (content : jsstring) : jsstring :=
  removeAll (N.eqb 0) (replaceCRLF content).

(** The [on_record] hook (lines 361-371): every record is kept. *)
Definition on_record (record : jsrecord) : jsrecord :=
  cleanField <$> record.

Section Files.

Context {codec : Codec} {detector : Detector} {fs : FileSystem}
        {node : NodeBuffer} {parser : Parser} {json : JsonWriter}.

(** [detectFileEncoding]: [None] when it throws; the answer may be
    [null], the label of a detection that found nothing.  The promise of
    [fs.readFile] is read through [readFileSync], [None] when it is
    rejected. *)
Definition detectFileEncoding (filePath : string) : option (option string) :=
  buffer ← readFileSync filePath;
  match jschardet_detect buffer with
  | Thrown _ => None
  | Returned None => None                (* null.confidence throws *)
  | Returned (Some d) =>
      if SFltb (confidence d) confidenceThreshold then Some (Some "gbk"%string)
      else Some (encoding d)
  end.

(** The choice of a decoder (lines 331-339). *)
Definition decodeDetected (buffer : buffer) (detectedEncoding : string)
    : option jsstring :=
  if (String.eqb detectedEncoding "ascii"
      || String.eqb detectedEncoding "utf-8")%bool then
    Some (toString_utf8 buffer)
  else if (Label.includes "gb" detectedEncoding
           || String.eqb detectedEncoding "gbk")%bool then
    iconv_decode buffer "gbk"
  else if String.eqb detectedEncoding "big5" then iconv_decode buffer "big5"
  else iconv_decode buffer "utf8".

(** [readCSVWithEncoding]: [None] stands for the error of line 348. *)
Definition readCSVWithEncoding (filePath : string) : option jsstring :=
  buffer ← readFileSync filePath;
  detected ← detectFileEncoding filePath;
  label ← detected;                      (* null.toLowerCase() throws *)
  content ← decodeDetected buffer (Label.toLowerCase label);
  Some (preprocess content).

(** [convertCSVToJSON]: every exception ends in [return false]. *)
Definition convertCSVToJSON (filePath : string) : bool :=
  match readCSVWithEncoding filePath with
  | None => false
  | Some csvContent =>
      match csv_parse csvContent with
      | None => false
      | Some parsed =>
          let records := on_record <$> parsed in
          let validRecords := List.filter validRecord records in
          let fileName := path_basename filePath ".csv" in
          let outputPath := path_join outputDir (fileName +:+ ".json") in
          writeJson outputPath validRecords
      end
  end.

End Files.

End Json.

(** ** What cleaning a field achieves

    [cleaned] is [value] without the code units of [cls] and without the
    white space around what is left. *)
Definition cleanedFrom (cls : N -> bool) (value cleaned : jsstring) : Prop :=
  Forall (fun c => cls c = false) cleaned
  /\ (exists l r, List.filter (fun c => negb (cls c)) value = l ++ cleaned ++ r
        /\ Forall (fun c => isWhiteSpace c = true) l
        /\ Forall (fun c => isWhiteSpace c = true) r)
  /\ (forall c rest, cleaned = c :: rest -> isWhiteSpace c = false)
  /\ (forall init c, cleaned = init ++ [c] -> isWhiteSpace c = false).

(** ** What [mapValues] reads as a number

    An optional minus sign, digits, an optional point, and at least one
    digit. *)
Definition decimalDigit (c : N) : Prop := (0x30 <= c <= 0x39)%N.

Definition decimalShape (s : jsstring) : Prop :=
  exists sign ints point frac,
    s = sign ++ ints ++ point ++ frac
    /\ (sign = [] \/ sign = [0x2D]%N)
    /\ Forall decimalDigit ints
    /\ (point = [] \/ point = [0x2E]%N)
    /\ Forall decimalDigit frac /\ frac <> [].

(** ** What makes a record worth keeping

    A field is filled when it is not [null] and, for a string, holds a
    code unit that cleaning neither removes nor trims. *)
Definition filled (value : jsvalue) : Prop :=
  match value with
  | VNull => False
  | VString s =>
      Exists (fun c => Xlsx2.controlChar c = false /\ isWhiteSpace c = false) s
  | _ => True
  end.

(** ** What rounding a product does

    The state of the rounding procedure of binary64 after [j] right
    shifts of a mantissa [m0]: the quotient, and where the remainder lies
    with respect to half of the last place. *)
Definition shifted (m0 : Z) (j : nat) (mrs : shr_record) : Prop :=
  exists rem,
    (m0 = shr_m mrs * 2 ^ Z.of_nat j + rem
     /\ 0 <= rem < 2 ^ Z.of_nat j
     /\ 0 <= shr_m mrs
     /\ shr_r mrs = (2 ^ Z.of_nat j <=? 2 * rem)
     /\ shr_s mrs = negb (rem =? 0) && negb (2 * rem =? 2 ^ Z.of_nat j))%Z.

(** ** Stand-ins for the libraries

    Small implementations of the interfaces, to run the scripts on
    concrete buffers.  The general results below hold for every
    implementation; these are only used to evaluate examples. *)

Module Sample.

Local Open Scope N_scope.

Definition isContinuation (b : byte) : bool :=
  (0x80 <=? Byte.to_N b) && (Byte.to_N b <=? 0xBF).

(** UTF-8 sequences of one to three bytes; any other byte is replaced by
    U+FFFD. *)
Fixpoint utf8Units (buffer : buffer) : jsstring :=
  match buffer with
  | [] => []
  | b :: rest =>
      let n := Byte.to_N b in
      if n <? 0x80 then n :: utf8Units rest
      else
        match rest with
        | [] => [0xFFFD]
        | t :: rest1 =>
            if (0xC2 <=? n) && (n <=? 0xDF) && isContinuation t then
              N.lor (N.shiftl (N.land n 0x1F) 6) (N.land (Byte.to_N t) 0x3F)
                :: utf8Units rest1
            else
              match rest1 with
              | [] => 0xFFFD :: utf8Units rest
              | u :: rest2 =>
                  if (0xE0 <=? n) && (n <=? 0xEF) && isContinuation t
                     && isContinuation u then
                    N.lor (N.shiftl (N.land n 0x0F) 12)
                      (N.lor (N.shiftl (N.land (Byte.to_N t) 0x3F) 6)
                             (N.land (Byte.to_N u) 0x3F))
                      :: utf8Units rest2
                  else 0xFFFD :: utf8Units rest
              end
        end
  end.

(** iconv-lite drops a leading byte-order mark when it decodes. *)
Definition stripBOM (s : jsstring) : jsstring :=
  match s with
  | 0xFEFF :: rest => rest
  | _ => s
  end.

Definition byteOf (n : N) : byte := default x3f (Byte.of_N n).

Definition utf8Bytes (s : jsstring) : buffer :=
  flat_map (fun c =>
    if c <? 0x80 then [byteOf c]
    else if c <? 0x800 then
      [byteOf (N.lor 0xC0 (N.shiftr c 6)); byteOf (N.lor 0x80 (N.land c 0x3F))]
    else
      [byteOf (N.lor 0xE0 (N.shiftr c 12));
       byteOf (N.lor 0x80 (N.land (N.shiftr c 6) 0x3F));
       byteOf (N.lor 0x80 (N.land c 0x3F))]) s.

(** A double-byte character set: a table of (lead, trail, code unit) and
    the bytes that stand alone. *)
Record charset : Type := {
  pairs : list (N * N * N);
  single : N -> option N
}.

Definition lookupPair (cs : charset) (lead trail : N) : option N :=
  snd <$> List.find (fun p => (fst (fst p) =? lead) && (snd (fst p) =? trail)) (pairs cs).

Definition lookupUnit (cs : charset) (c : N) : option (N * N) :=
  fst <$> List.find (fun p => snd p =? c) (pairs cs).

Fixpoint dbcsUnits (cs : charset) (buffer : buffer) : jsstring :=
  match buffer with
  | [] => []
  | b :: rest =>
      let n := Byte.to_N b in
      if n <? 0x80 then n :: dbcsUnits cs rest
      else
        match single cs n with
        | Some c => c :: dbcsUnits cs rest
        | None =>
            match rest with
            | [] => [0xFFFD]
            | t :: rest1 =>
                match lookupPair cs n (Byte.to_N t) with
                | Some c => c :: dbcsUnits cs rest1
                | None => 0xFFFD :: dbcsUnits cs rest
                end
            end
        end
  end.

(** A code unit outside the character set is written as "?". *)
Definition dbcsBytes (cs : charset) (s : jsstring) : buffer :=
  flat_map (fun c =>
    if c <? 0x80 then [byteOf c]
    else
      match lookupUnit cs c with
      | Some (lead, trail) => [byteOf lead; byteOf trail]
      | None => [x3f]
      end) s.

Definition noSingle (n : N) : option N := None.

(** Half-width katakana, the single bytes 0xA1-0xDF of Shift-JIS. *)
Definition katakana (n : N) : option N :=
  if (0xA1 <=? n) && (n <=? 0xDF) then Some (0xFF61 + (n - 0xA1)) else None.

Definition gbk : charset :=
  {| pairs := [ (0xD6, 0xD0, 0x4E2D); (0xCE, 0xC4, 0x6587) ]; single := noSingle |}.

Definition big5 : charset :=
  {| pairs := [ (0xA4, 0xA4, 0x4E2D); (0xA4, 0xE5, 0x6587) ]; single := noSingle |}.

Definition shiftjis : charset :=
  {| pairs := [ (0x92, 0x86, 0x4E2D); (0x95, 0xB6, 0x6587); (0xE3, 0x81, 0x7E3A) ];
     single := katakana |}.

(** Windows-1252 restricted to the bytes it shares with Latin-1. *)
Definition cp1252 : charset :=
  {| pairs := [];
     single := fun n => if 0xA0 <=? n then Some n else None |}.

(** iconv-lite compares encoding names after lower-casing them and
    dropping everything but letters and digits. *)
Fixpoint canonicalName (name : string) : string :=
  match name with
  | EmptyString => EmptyString
  | String a rest =>
      let l := Label.lowerAscii a in
      let n := N_of_ascii l in
      if ((0x30 <=? n) && (n <=? 0x39)) || ((0x61 <=? n) && (n <=? 0x7A))
      then String l (canonicalName rest)
      else canonicalName rest
  end.

Definition charsetOf (name : string) : option charset :=
  let name := canonicalName name in
  if String.eqb name "gbk" then Some gbk
  else if String.eqb name "big5" then Some big5
  else if String.eqb name "shiftjis" then Some shiftjis
  else if String.eqb name "cp1252" then Some cp1252
  else None.

Definition decode (buffer : buffer) (name : string) : option jsstring :=
  if String.eqb (canonicalName name) "utf8" then Some (stripBOM (utf8Units buffer))
  else (fun cs => dbcsUnits cs buffer) <$> charsetOf name.

Definition encode (s : jsstring) (name : string) : option buffer :=
  if String.eqb (canonicalName name) "utf8" then Some (utf8Bytes s)
  else (fun cs => dbcsBytes cs s) <$> charsetOf name.

Definition codec : Codec :=
  {| iconv_decode := decode; iconv_encode := encode |}.

(** The codec above, except that it rejects one buffer under every name. *)
Definition rejecting (bad : buffer) : Codec :=
  {| iconv_decode := fun b name =>
       if Xlsx.bufferEquals b bad then None else decode b name;
     iconv_encode := encode |}.

(** A detector that answers [r] whatever the buffer. *)
Definition answering (r : outcome (option detection)) : Detector :=
  {| jschardet_detect := fun _ => r |}.

Definition undecided : Detector :=
  answering (Returned (Some {| encoding := None; confidence := S754_zero false |})).

Definition digitOf (c : N) : option Z :=
  if (0x30 <=? c) && (c <=? 0x39) then Some (Z.of_N (c - 0x30)) else None.

Fixpoint readDigits (acc : Z) (count : nat) (s : jsstring) : Z * nat * jsstring :=
  match s with
  | [] => (acc, count, [])
  | c :: rest =>
      match digitOf c with
      | Some d => readDigits (10 * acc + d) (S count) rest
      | None => (acc, count, s)
      end
  end.

(** [Number] on decimal literals "-ddd.ddd": the binary64 value nearest
    to the literal, ties to even. *)
Definition decimalNumber (s : jsstring) : spec_float :=
  let '(negative, s1) :=
    match s with
    | 0x2D :: rest => (true, rest)
    | _ => (false, s)
    end in
  let '(int, nInt, s2) := readDigits 0 0 s1 in
  let '(mantissa, nFrac, s3) :=
    match s2 with
    | 0x2E :: rest => readDigits int 0 rest
    | _ => (int, 0%nat, s2)
    end in
  match s3, (nInt + nFrac)%nat, mantissa with
  | [], S _, Z0 => S754_zero negative
  | [], S _, Zpos m =>
      let '(q, e, l) :=
        SFdiv_core_binary 53 1024 (Zpos m) 0 (10 ^ Z.of_nat nFrac)%Z 0 in
      binary_round_aux 53 1024 negative q e l
  | _, _, _ => S754_nan
  end.

Definition daysInMonth (y m : Z) : Z :=
  (if (m =? 2) then
     if ((y mod 4 =? 0) && negb (y mod 100 =? 0)) || (y mod 400 =? 0) then 29 else 28
   else if (m =? 4) || (m =? 6) || (m =? 9) || (m =? 11) then 30 else 31)%Z.

(** Days from 1970-01-01 to the given civil date. *)
Definition daysFromCivil (y m d : Z) : Z :=
  (let y' := if m <=? 2 then y - 1 else y in
   let era := y' / 400 in
   let yoe := y' - era * 400 in
   let mp := if 2 <? m then m - 3 else m + 9 in
   let doy := (153 * mp + 2) / 5 + d - 1 in
   let doe := yoe * 365 + yoe / 4 - yoe / 100 + doy in
   era * 146097 + doe - 719468)%Z.

(** [new Date(s)] for the one format every engine must accept,
    "YYYY-MM-DD" (read as UTC); anything else is an Invalid Date, which
    the language leaves to the engine. *)
Definition isoDate (s : jsstring) : option Z :=
  match s with
  | [y1; y2; y3; y4; 0x2D; m1; m2; 0x2D; d1; d2] =>
      match readDigits 0 0 [y1; y2; y3; y4], readDigits 0 0 [m1; m2],
            readDigits 0 0 [d1; d2] with
      | (y, 4%nat, []), (m, 2%nat, []), (d, 2%nat, []) =>
          if ((1 <=? m) && (m <=? 12) && (1 <=? d) && (d <=? daysInMonth y m))%Z
          then Some (daysFromCivil y m d * 86400000)%Z
          else None
      | _, _, _ => None
      end
  | _ => None
  end.

Definition engine : Engine :=
  {| Number := decimalNumber; Date_parse := isoDate |}.

(** A directory given by its files; paths are joined with "/". *)
Definition files (dir : list (string * buffer)) : FileSystem :=
  {| readFileSync := fun p => snd <$> List.find (fun f => String.eqb (fst f) p) dir;
     path_join := fun a b => (a +:+ "/" +:+ b)%string;
     path_basename := fun p ext =>
       let n := String.length p in
       let k := String.length ext in
       if ((k <=? n)%nat && String.eqb (substring (n - k) k p) ext)%bool
       then substring 0 (n - k) p else p |}.

(** Buffers for the examples: the GBK bytes of U+4E2D followed by
    eighteen letters; the same two bytes followed by a lead byte with
    nothing after it; a control character followed by the UTF-8 bytes of
    U+3061. *)
Definition tenPercentBuffer : buffer := [xd6; xd0] ++ repeat x41 18.
Definition danglingLeadBuffer : buffer := [xd6; xd0; xd6].
Definition hiraganaBuffer : buffer := [x01; xe3; x81; xa1].
Definition gbkBuffer : buffer := [xd6; xd0].

(** Two records of a patient table, as the parser hands them over. *)
Definition otherPatient : gmap (list N) jsvalue :=
  {[ js "PATIENT_ID" := VString (js "PA999"); js "NAME" := VString (js "Wu") ]}.

Definition allowedPatient : gmap (list N) jsvalue :=
  {[ js "PATIENT_ID" := VString (js "PA100");
     js "NAME" := VString [0x4C; 0x69; 0x09; 0x20]%N;
     js "AGE" := VString (js "41") ]}.

(** A sink that never fails. *)
Definition sink : Xlsx.Sink :=
  {| Xlsx.parseAndWrite := fun _ _ _ => true |}.

(** A detector that is sure of a label. *)
Definition sure (label : string) : Detector :=
  answering (Returned (Some {| encoding := Some label;
                               confidence := S754_finite false 4503599627370496 (-52) |})).

(** Node's own UTF-8 decoder. *)
Definition node : Json.NodeBuffer :=
  {| Json.toString_utf8 := utf8Units |}.

(** A directory that exists and lists [names]. *)
Definition listing (names : list string) : Cli.Directory :=
  {| Cli.existsSync := fun _ => true;
     Cli.mkdirSync := fun _ => true;
     Cli.readdirSync := fun _ => Some names |}.

(** A formatter for sheets of strings: the sheets of the examples hold
    no number and no date. *)
Definition formatter : Sheet.Formatter :=
  {| Sheet.String_number := fun _ => js "0";
     Sheet.String_date := fun _ => js "1970-01-01" |}.

(** Two rows of a sheet; the note of the second has sixty letters. *)
Definition shortRow : Sheet.row :=
  [ (js "NAME", VString (js "Li")); (js "NOTE", VNull) ].

Definition longRow : Sheet.row :=
  [ (js "NAME", VString (js "Zhang Wei")); (js "NOTE", VString (repeat 0x61 60)) ].

End Sample.

(** * Properties *)

(** Settles an equation between comparisons of code units by cases. *)
Ltac compare_code_units :=
  repeat match goal with
         | |- context [(?a <=? ?b)%N] => destruct (N.leb_spec a b)
         | |- context [(?a =? ?b)%N] => destruct (N.eqb_spec a b)
         end;
  simpl; try reflexivity; exfalso; lia.

(** ** Strings *)

Section StringFacts.

Import JS.

Lemma removeAll_filter cls s :
  removeAll cls s = List.filter (fun c => negb (cls c)) s.
Proof.
  induction s as [|c s IH]; simpl; [reflexivity|].
  destruct (cls c); simpl; rewrite IH; reflexivity.
Qed.

Lemma removeAll_clean cls s :
  Forall (fun c => cls c = false) (removeAll cls s).
Proof.
  induction s as [|c s IH]; simpl; [constructor|].
  destruct (cls c) eqn:E; [exact IH|]. constructor; assumption.
Qed.

Lemma removeAll_id cls s :
  Forall (fun c => cls c = false) s -> removeAll cls s = s.
Proof.
  induction 1 as [|c s Hc _ IH]; simpl; [reflexivity|].
  rewrite Hc, IH. reflexivity.
Qed.

Lemma trimStart_split s :
  exists l, s = l ++ trimStart s /\ Forall (fun c => isWhiteSpace c = true) l.
Proof.
  induction s as [|c s [l [Hs Hl]]]; simpl.
  - exists []. split; [reflexivity|constructor].
  - destruct (isWhiteSpace c) eqn:E.
    + exists (c :: l). split; [simpl; congruence|constructor; assumption].
    + exists []. split; [reflexivity|constructor].
Qed.

Lemma trimStart_head s c rest :
  trimStart s = c :: rest -> isWhiteSpace c = false.
Proof.
  induction s as [|d s IH]; simpl; [discriminate|].
  destruct (isWhiteSpace d) eqn:E; [exact IH|].
  intros H. injection H as -> _. exact E.
Qed.

Lemma trimStart_fixed c rest :
  isWhiteSpace c = false -> trimStart (c :: rest) = c :: rest.
Proof. intros H. simpl. rewrite H. reflexivity. Qed.

Lemma trimStart_idem s : trimStart (trimStart s) = trimStart s.
Proof.
  destruct (trimStart s) as [|c rest] eqn:E; [reflexivity|].
  apply trimStart_fixed. eapply trimStart_head. exact E.
Qed.

Lemma trimStart_whitespace s :
  Forall (fun c => isWhiteSpace c = true) s -> trimStart s = [].
Proof.
  induction 1 as [|c s Hc _ IH]; simpl; [reflexivity|].
  rewrite Hc. exact IH.
Qed.

Lemma trimEnd_split s :
  exists r, s = trimEnd s ++ r /\ Forall (fun c => isWhiteSpace c = true) r.
Proof.
  destruct (trimStart_split (rev s)) as [l [Hs Hl]].
  exists (rev l). split.
  - unfold trimEnd. rewrite <- rev_app_distr, <- Hs, rev_involutive. reflexivity.
  - apply Forall_rev. exact Hl.
Qed.

Lemma trimEnd_last s init c :
  trimEnd s = init ++ [c] -> isWhiteSpace c = false.
Proof.
  unfold trimEnd. intros H.
  apply (f_equal (@rev N)) in H.
  rewrite rev_involutive, rev_app_distr in H. simpl in H.
  eapply trimStart_head. exact H.
Qed.

Lemma trimEnd_idem s : trimEnd (trimEnd s) = trimEnd s.
Proof.
  unfold trimEnd. rewrite rev_involutive, trimStart_idem. reflexivity.
Qed.

(** Trimming the end leaves the first code unit alone. *)
Lemma trimEnd_head s c rest :
  trimEnd s = c :: rest -> exists rest', s = c :: rest'.
Proof.
  intros H. destruct (trimEnd_split s) as [r [Hs _]].
  rewrite H in Hs. simpl in Hs. eauto.
Qed.

Lemma trim_split s :
  exists l r, s = l ++ trim s ++ r
    /\ Forall (fun c => isWhiteSpace c = true) l
    /\ Forall (fun c => isWhiteSpace c = true) r.
Proof.
  destruct (trimStart_split s) as [l [Hs Hl]].
  destruct (trimEnd_split (trimStart s)) as [r [Ht Hr]].
  exists l, r. unfold trim. rewrite <- Ht. auto.
Qed.

Lemma trim_head s c rest : trim s = c :: rest -> isWhiteSpace c = false.
Proof.
  unfold trim. intros H.
  destruct (trimEnd_head _ _ _ H) as [rest' H'].
  eapply trimStart_head. exact H'.
Qed.

Lemma trim_last s init c : trim s = init ++ [c] -> isWhiteSpace c = false.
Proof. unfold trim. apply trimEnd_last. Qed.

Lemma trim_idem s : trim (trim s) = trim s.
Proof.
  unfold trim at 1.
  destruct (trim s) as [|c rest] eqn:E; [reflexivity|].
  rewrite trimStart_fixed by (eapply trim_head; exact E).
  rewrite <- E. unfold trim. apply trimEnd_idem.
Qed.

Lemma trim_whitespace s :
  Forall (fun c => isWhiteSpace c = true) s -> trim s = [].
Proof.
  intros H. unfold trim. rewrite (trimStart_whitespace _ H). reflexivity.
Qed.

Lemma trim_Forall (P : N -> Prop) s : Forall P s -> Forall P (trim s).
Proof.
  intros H. destruct (trim_split s) as [l [r [Hs _]]].
  rewrite Hs in H.
  apply Forall_app in H as [_ H]. apply Forall_app in H as [H _]. exact H.
Qed.

End StringFacts.

(** ** The matcher decides the language of a pattern *)

Section RegexFacts.

Import JS.

Lemma lang_seq_inv r1 r2 s :
  lang (Seq r1 r2) s -> exists s1 s2, s = s1 ++ s2 /\ lang r1 s1 /\ lang r2 s2.
Proof. inversion 1; subst; eauto. Qed.

Lemma lang_alt_inv r1 r2 s : lang (Alt r1 r2) s -> lang r1 s \/ lang r2 s.
Proof. inversion 1; subst; auto. Qed.

Lemma lang_class_inv cls s : lang (Class cls) s -> exists c, s = [c] /\ cls c = true.
Proof. inversion 1; subst; eauto. Qed.

Lemma lang_empty_inv s : lang Empty s -> s = [].
Proof. inversion 1; reflexivity. Qed.

Lemma lang_never_inv s : ~ lang Never s.
Proof. inversion 1. Qed.

Lemma nullable_lang r : nullable r = true <-> lang r [].
Proof.
  induction r as [| | cls | r1 IH1 r2 IH2 | r1 IH1 r2 IH2 | r IH]; simpl.
  - split; [discriminate | intros H; destruct (lang_never_inv _ H)].
  - split; [constructor | reflexivity].
  - split; [discriminate|].
    intros H. apply lang_class_inv in H as [c [E _]]. discriminate E.
  - rewrite andb_true_iff, IH1, IH2. split.
    + intros [H1 H2]. apply (lang_seq _ _ [] []); assumption.
    + intros H. apply lang_seq_inv in H as [s1 [s2 [E [H1 H2]]]].
      symmetry in E. apply app_eq_nil in E as [-> ->]. split; assumption.
  - rewrite orb_true_iff, IH1, IH2. split.
    + intros [H|H]; [apply lang_alt_l | apply lang_alt_r]; exact H.
    + apply lang_alt_inv.
  - split; [constructor | reflexivity].
Qed.

Lemma lang_star_cons r c s :
  lang (Star r) (c :: s) ->
  exists s1 s2, s = s1 ++ s2 /\ lang r (c :: s1) /\ lang (Star r) s2.
Proof.
  intros H. remember (Star r) as r' eqn:Er. remember (c :: s) as w eqn:Ew.
  revert s Ew.
  induction H as [| | | | | |r0 s1 s2 H1 _ H2 IH2]; try discriminate Er;
    intros t Ew; [discriminate Ew|].
  injection Er as ->.
  destruct s1 as [|d s1]; simpl in Ew.
  - apply IH2; [reflexivity | exact Ew].
  - injection Ew as -> <-. exists s1, s2. auto.
Qed.

Lemma derive_seq_lang c r1 r2 w :
  (forall s, lang (derive c r1) s -> lang r1 (c :: s)) ->
  lang (Seq (derive c r1) r2) w -> lang (Seq r1 r2) (c :: w).
Proof.
  intros IH1 H. apply lang_seq_inv in H as [s1 [s2 [-> [H1 H2]]]].
  apply (lang_seq _ _ (c :: s1) s2); [apply IH1|]; assumption.
Qed.

Lemma derive_lang c r s : lang (derive c r) s <-> lang r (c :: s).
Proof.
  revert s.
  induction r as [| | cls | r1 IH1 r2 IH2 | r1 IH1 r2 IH2 | r IH]; intros s; simpl.
  - split; intros H; destruct (lang_never_inv _ H).
  - split; intros H; [destruct (lang_never_inv _ H)|].
    apply lang_empty_inv in H. discriminate H.
  - split.
    + destruct (cls c) eqn:E; intros H; [|destruct (lang_never_inv _ H)].
      apply lang_empty_inv in H as ->. constructor. exact E.
    + intros H. apply lang_class_inv in H as [d [E Hd]].
      injection E as <- ->. rewrite Hd. constructor.
  - split.
    + intros H.
      destruct (nullable r1) eqn:En;
        [|apply derive_seq_lang; [apply IH1 | exact H]].
      apply lang_alt_inv in H as [H|H];
        [apply derive_seq_lang; [apply IH1 | exact H]|].
      apply IH2 in H. apply nullable_lang in En.
      apply (lang_seq _ _ [] (c :: s)); assumption.
    + intros H. apply lang_seq_inv in H as [s1 [s2 [E [H1 H2]]]].
      destruct s1 as [|d s1]; simpl in E.
      * subst s2. apply nullable_lang in H1. rewrite H1.
        apply lang_alt_r. apply IH2. exact H2.
      * injection E as <- ->. apply IH1 in H1.
        destruct (nullable r1); [apply lang_alt_l|]; constructor; assumption.
  - split; intros H; apply lang_alt_inv in H as [H|H];
      [apply lang_alt_l, IH1 | apply lang_alt_r, IH2
      |apply lang_alt_l, IH1 | apply lang_alt_r, IH2]; exact H.
  - split.
    + intros H. apply lang_seq_inv in H as [s1 [s2 [-> [H1 H2]]]].
      apply IH in H1. apply (lang_star_more _ (c :: s1) s2); assumption.
    + intros H. apply lang_star_cons in H as [s1 [s2 [-> [H1 H2]]]].
      constructor; [apply IH|]; assumption.
Qed.

(** [test] accepts exactly the strings of the pattern's language. *)
Lemma test_lang r s : test r s = true <-> lang r s.
Proof.
  revert r. induction s as [|c s IH]; intros r; simpl.
  - apply nullable_lang.
  - rewrite IH. apply derive_lang.
Qed.

End RegexFacts.

(** ** The record normaliser *)

Section NormalizerFacts.

Import JS Normalizer.

Context {engine : Engine}.

Lemma removeAll_trim_cleanedFrom cls value :
  cleanedFrom cls value (trim (removeAll cls value)).
Proof.
  repeat split.
  - apply trim_Forall, removeAll_clean.
  - rewrite <- removeAll_filter. apply trim_split.
  - apply trim_head.
  - apply trim_last.
Qed.

Lemma removeAll_trim_idem cls value :
  trim (removeAll cls (trim (removeAll cls value))) = trim (removeAll cls value).
Proof.
  rewrite (removeAll_id cls (trim _)); [apply trim_idem|].
  apply trim_Forall, removeAll_clean.
Qed.

Lemma cleanValue_idem value : cleanValue (cleanValue value) = cleanValue value.
Proof. apply removeAll_trim_idem. Qed.

(** What is left of a string of control characters and white space once
    the control characters are gone is white space. *)
Lemma removeAll_blank cls s :
  Forall (fun c => cls c = true \/ isWhiteSpace c = true) s ->
  Forall (fun c => isWhiteSpace c = true) (removeAll cls s).
Proof.
  induction 1 as [|c s Hc _ IH]; simpl; [constructor|].
  destruct (cls c) eqn:E; [exact IH|].
  constructor; [|exact IH]. destruct Hc as [Hc|Hc]; [congruence|exact Hc].
Qed.

Lemma mapValues_empty header : mapValues header [] = VNull.
Proof. reflexivity. Qed.

(** A string that comes out of [mapValues] is the cleaned input. *)
Lemma mapValues_string header value s :
  mapValues header value = VString s ->
  value <> [] /\ s = cleanValue value /\ dateOrString s = VString s
  /\ (test numberPattern s = true -> isNaN (Number s) = true).
Proof.
  unfold mapValues. destruct value as [|c value]; [discriminate|].
  set (v := cleanValue (c :: value)).
  assert (Hd : forall t, dateOrString v = VString t -> t = v /\ dateOrString t = VString t).
  { intros t Ht. assert (t = v) as ->; [|auto].
    unfold dateOrString in Ht.
    destruct (existsb _ dateFormats); [destruct (Date_parse v)|]; congruence. }
  destruct (test numberPattern v) eqn:En.
  - destruct (isNaN (Number v)) eqn:Ei; simpl; [|discriminate].
    intros H. apply Hd in H as [-> H]. rewrite En, Ei. auto.
  - intros H. apply Hd in H as [-> H]. rewrite En. repeat split; auto; discriminate.
Qed.

(** C5.  A field whose input value is the empty string is normalised to
    null, never to the empty string: in every row handed to [mapValues],
    a cell holding "" becomes null. *)
Theorem empty_field_becomes_null (row : gmap (list N) (list N)) (header : jsstring) :
  row !! header = Some [] ->
  mapRow row !! header = Some VNull /\ mapRow row !! header <> Some (VString []).
Proof.
  intros H. unfold mapRow. rewrite map_lookup_imap, H.
  change (Some [] ≫= (fun value => Some (mapValues header value)))
    with (Some (mapValues header [])).
  rewrite mapValues_empty. split; [reflexivity | discriminate].
Qed.

(** C10.  A non-empty value made of control characters and white space
    only is normalised to the empty string, not to null: the test for ""
    comes before the cleaning. *)
Theorem blank_field_becomes_empty_string (header value : jsstring) :
  value <> [] ->
  Forall (fun c => controlChar c = true \/ isWhiteSpace c = true) value ->
  mapValues header value = VString [] /\ mapValues header value <> VNull.
Proof.
  intros Hne Hblank.
  assert (Hclean : cleanValue value = []).
  { unfold cleanValue. apply trim_whitespace, removeAll_blank. exact Hblank. }
  destruct value as [|c value]; [contradiction|].
  unfold mapValues. rewrite Hclean. simpl. split; [reflexivity | discriminate].
Qed.

(** C4, as amended.  Normalising a field twice: if the first pass yields
    a string, the second pass leaves it alone unless it is empty, and
    turns the empty string into null. *)
Theorem mapValues_twice (header value s : jsstring) :
  mapValues header value = VString s ->
  mapValuesCell header (mapValues header value) =
    Returned (match s with [] => VNull | _ :: _ => VString s end).
Proof.
  intros H. rewrite H. simpl. f_equal.
  apply mapValues_string in H as [_ [Hs [Hd Hn]]].
  destruct s as [|c s]; [reflexivity|].
  unfold mapValues.
  assert (Hc : cleanValue (c :: s) = c :: s) by (rewrite Hs; apply cleanValue_idem).
  rewrite Hc.
  destruct (test numberPattern (c :: s)) eqn:En; [|exact Hd].
  rewrite (Hn eq_refl). exact Hd.
Qed.

(** C6, as amended.  Cleaning a textual field removes every code unit of
    the script's class and the white space around the rest.  In 2xlsx.js
    the class is 0x00-0x1F and 0x7F, tab, line feed and carriage return
    included; in 2xlsx2.js it is the same class without line feed. *)
Theorem cleaning_removes_control_characters (value : jsstring) :
  cleanedFrom (fun c => (c <=? 0x1F)%N || (c =? 0x7F)%N) value (cleanValue value)
  /\ exists cleaned,
       Xlsx2.cleanField (VString value) = VString cleaned
       /\ cleanedFrom (fun c => (c <=? 0x09)%N || ((0x0B <=? c)%N && (c <=? 0x1F)%N)
                                 || (c =? 0x7F)%N) value cleaned.
Proof.
  split.
  - assert (E : forall c, controlChar c = ((c <=? 0x1F)%N || (c =? 0x7F)%N)).
    { intros c. unfold controlChar, inRanges. simpl. compare_code_units. }
    pose proof (removeAll_trim_cleanedFrom controlChar value) as H.
    unfold cleanedFrom in *. unfold cleanValue.
    destruct H as [H1 [[l [r [H2 H3]]] H4]]. split; [|split].
    + eapply Forall_impl; [exact H1|]. intros c Hc. simpl in Hc. rewrite <- E. exact Hc.
    + exists l, r. rewrite <- H2. split; [|exact H3].
      apply filter_ext. intros c. rewrite E. reflexivity.
    + exact H4.
  - eexists. split; [reflexivity|].
    assert (E : forall c, Xlsx2.controlChar c =
                 ((c <=? 0x09)%N || ((0x0B <=? c)%N && (c <=? 0x1F)%N) || (c =? 0x7F)%N)).
    { intros c. unfold Xlsx2.controlChar, inRanges. simpl. compare_code_units. }
    pose proof (removeAll_trim_cleanedFrom Xlsx2.controlChar value) as H.
    unfold cleanedFrom in *.
    destruct H as [H1 [[l [r [H2 H3]]] H4]]. split; [|split].
    + eapply Forall_impl; [exact H1|]. intros c Hc. simpl in Hc. rewrite <- E. exact Hc.
    + exists l, r. rewrite <- H2. split; [|exact H3].
      apply filter_ext. intros c. rewrite E. reflexivity.
    + exact H4.
Qed.

End NormalizerFacts.

(** ** The threshold in binary64

    The comparison of the scan is made on binary64 numbers.  For every
    length below 2^52 it comes out as the comparison of the integers
    [total] and [10 * invalid]. *)

(** Settles an equation between comparisons of integers by cases. *)
Ltac compare_integers :=
  repeat match goal with
         | |- context [(?a <=? ?b)%Z] => destruct (Z.leb_spec a b)
         | |- context [(?a <? ?b)%Z] => destruct (Z.ltb_spec a b)
         | |- context [(?a =? ?b)%Z] => destruct (Z.eqb_spec a b)
         end;
  simpl; try reflexivity; exfalso; lia.

Section Binary64Facts.

Import JS Xlsx.

Local Open Scope Z_scope.

Lemma iter_pos_nat {A} (f : A -> A) p x :
  SpecFloat.iter_pos f p x = Nat.iter (Pos.to_nat p) f x.
Proof.
  revert x. induction p as [p IH|p IH|]; intros x.
  - change (SpecFloat.iter_pos f p~1 x) with (SpecFloat.iter_pos f p (SpecFloat.iter_pos f p (f x))).
    rewrite !IH, Pos2Nat.inj_xI, <- Nat.iter_add.
    replace (S (2 * Pos.to_nat p)) with (S (Pos.to_nat p + Pos.to_nat p)) by lia.
    rewrite Nat.iter_succ_r. reflexivity.
  - change (SpecFloat.iter_pos f p~0 x) with (SpecFloat.iter_pos f p (SpecFloat.iter_pos f p x)).
    rewrite !IH, Pos2Nat.inj_xO, <- Nat.iter_add. f_equal. lia.
  - reflexivity.
Qed.

Lemma shr_1_nonneg m r s :
  0 <= m -> shr_1 {| shr_m := m; shr_r := r; shr_s := s |}
            = {| shr_m := m / 2; shr_r := Z.odd m; shr_s := r || s |}.
Proof.
  intros Hm. destruct m as [|p|p]; [reflexivity| |lia].
  assert (H1 : forall q, Z.pos q~1 / 2 = Z.pos q).
  { intros q. rewrite Pos2Z.inj_xI. symmetry. apply (Z.div_unique _ 2 _ 1); lia. }
  assert (H0 : forall q, Z.pos q~0 / 2 = Z.pos q).
  { intros q. rewrite Pos2Z.inj_xO. symmetry. apply (Z.div_unique _ 2 _ 0); lia. }
  destruct p as [p|p|]; simpl shr_1; rewrite ?H1, ?H0; reflexivity.
Qed.

Lemma shifted_iter m0 j :
  0 <= m0 ->
  shifted m0 j (Nat.iter j shr_1 {| shr_m := m0; shr_r := false; shr_s := false |}).
Proof.
  intros Hm0. induction j as [|j IH].
  - exists 0. cbn. repeat split; lia.
  - rewrite Nat.iter_succ.
    destruct (Nat.iter j shr_1 _) as [m r s].
    destruct IH as [rem [Hm [Hrem [Hpos [Hr Hs]]]]]. cbn [shr_m shr_r shr_s] in Hm, Hrem, Hpos, Hr, Hs.
    rewrite shr_1_nonneg by exact Hpos.
    exists (Z.b2z (Z.odd m) * 2 ^ Z.of_nat j + rem). cbn [shr_m shr_r shr_s].
    rewrite Nat2Z.inj_succ, Z.pow_succ_r by lia.
    pose proof (Z.div_mod m 2 ltac:(lia)) as Hdm.
    rewrite Zmod_odd in Hdm.
    assert (Hpow : 0 < 2 ^ Z.of_nat j) by (apply Z.pow_pos_nonneg; lia).
    subst r s.
    set (P := 2 ^ Z.of_nat j) in *. clearbody P.
    assert (Hq : 0 <= m / 2) by (apply Z.div_pos; lia).
    set (q := m / 2) in *. clearbody q.
    destruct (Z.odd m); simpl Z.b2z in *;
      (split; [nia|]); (split; [lia|]); (split; [lia|]); split; compare_integers.
Qed.

Lemma digits2_size p : digits2_pos p = Pos.size p.
Proof. induction p; simpl; congruence. Qed.

Lemma digits_bounds p :
  2 ^ (Zdigits2 (Z.pos p) - 1) <= Z.pos p < 2 ^ Zdigits2 (Z.pos p).
Proof.
  cbn [Zdigits2]. rewrite digits2_size. split.
  - pose proof (Pos.size_le p) as H.
    apply Pos2Z.pos_le_pos in H. rewrite Pos2Z.inj_pow in H.
    replace (Z.pos (Pos.size p)) with (Z.succ (Z.pos (Pos.size p) - 1)) in H by lia.
    rewrite Z.pow_succ_r in H by lia. rewrite (Pos2Z.inj_xO p) in H. lia.
  - pose proof (Pos.size_gt p) as H.
    apply Pos2Z.pos_lt_pos in H. rewrite Pos2Z.inj_pow in H. exact H.
Qed.

Lemma digits_unique p d :
  2 ^ (d - 1) <= Z.pos p < 2 ^ d -> Zdigits2 (Z.pos p) = d.
Proof.
  intros [Hlo Hhi]. pose proof (digits_bounds p) as [Hlo' Hhi'].
  set (D := Zdigits2 (Z.pos p)) in *.
  assert (HD : 0 < D) by (subst D; cbn [Zdigits2]; lia).
  assert (Hd : 0 < d).
  { destruct (Z_lt_le_dec 0 d); [assumption|].
    assert (2 ^ d <= 2 ^ 0) by (destruct (Z_lt_le_dec d 0);
      [rewrite Z.pow_neg_r by lia; simpl; lia | apply Z.pow_le_mono_r; lia]).
    simpl in *. lia. }
  destruct (Z.lt_trichotomy D d) as [H|[H|H]]; [|exact H|]; exfalso.
  - assert (2 ^ D <= 2 ^ (d - 1)) by (apply Z.pow_le_mono_r; lia). lia.
  - assert (2 ^ d <= 2 ^ (D - 1)) by (apply Z.pow_le_mono_r; lia). lia.
Qed.

Lemma shr_shifted (mx : positive) (ex k : Z) :
  0 <= k ->
  exists mrs,
    shr {| shr_m := Z.pos mx; shr_r := false; shr_s := false |} ex k = (mrs, ex + k)
    /\ shifted (Z.pos mx) (Z.to_nat k) mrs.
Proof.
  intros Hk. destruct k as [|p|p]; [| |lia].
  - eexists. split; [simpl; rewrite Z.add_0_r; reflexivity|].
    apply (shifted_iter (Z.pos mx) 0). lia.
  - eexists. split; [reflexivity|].
    rewrite iter_pos_nat, Z2Nat.inj_pos. apply shifted_iter. lia.
Qed.

Lemma round_nearest_even_shifted m0 j mrs :
  shifted m0 j mrs ->
  let mr := round_nearest_even (shr_m mrs) (loc_of_shr_record mrs) in
  shr_m mrs <= mr <= shr_m mrs + 1
  /\ (2 * mr - 1) * 2 ^ Z.of_nat j <= 2 * m0 <= (2 * mr + 1) * 2 ^ Z.of_nat j
  /\ (2 * m0 = (2 * mr - 1) * 2 ^ Z.of_nat j -> Z.even mr = true)
  /\ (2 * m0 = (2 * mr + 1) * 2 ^ Z.of_nat j -> Z.even mr = true).
Proof.
  intros [rem [Hm [Hrem [Hpos [Hr Hs]]]]].
  destruct mrs as [m r s]. cbn [shr_m shr_r shr_s] in *.
  assert (Hpow : 0 < 2 ^ Z.of_nat j) by (apply Z.pow_pos_nonneg; lia).
  set (P := 2 ^ Z.of_nat j) in *. clearbody P.
  destruct (Z.leb_spec P (2 * rem)) as [Hge|Hlt];
    destruct (Z.eqb_spec rem 0) as [H0|H0];
    destruct (Z.eqb_spec (2 * rem) P) as [Hh|Hh];
    simpl in Hs; subst r s; cbn [loc_of_shr_record round_nearest_even]; try lia.
  (* what is left is the tie *)
  destruct (Z.even m) eqn:He; repeat split; try nia;
    intros _; first [exact He | rewrite Z.even_add, He; reflexivity].
Qed.

Lemma binary_round_aux_normal (mx : positive) (ex : Z) :
  53 <= Zdigits2 (Z.pos mx) ->
  -1074 <= ex + (Zdigits2 (Z.pos mx) - 53) < 971 ->
  exists mf ef mr,
    binary_round_aux 53 1024 false (Z.pos mx) ex loc_Exact = S754_finite false mf ef
    /\ Zdigits2 (Z.pos mf) = 53
    /\ ex + (Zdigits2 (Z.pos mx) - 53) <= ef
    /\ Z.pos mf * 2 ^ (ef - (ex + (Zdigits2 (Z.pos mx) - 53))) = mr
    /\ (2 * mr - 1) * 2 ^ (Zdigits2 (Z.pos mx) - 53) <= 2 * Z.pos mx
       <= (2 * mr + 1) * 2 ^ (Zdigits2 (Z.pos mx) - 53)
    /\ (2 * Z.pos mx = (2 * mr - 1) * 2 ^ (Zdigits2 (Z.pos mx) - 53) -> Z.even mr = true)
    /\ (2 * Z.pos mx = (2 * mr + 1) * 2 ^ (Zdigits2 (Z.pos mx) - 53) -> Z.even mr = true).
Proof.
  pose proof (digits_bounds mx) as Hmx.
  set (D := Zdigits2 (Z.pos mx)) in *. intros HD He.
  destruct (shr_shifted mx ex (D - 53)) as [mrs [Hshr Hsh]]; [lia|].
  pose proof (round_nearest_even_shifted _ _ _ Hsh) as Hround.
  cbv zeta in Hround. rewrite Z2Nat.id in Hround by lia.
  destruct Hsh as [rem [Hm [Hrem [Hpos _]]]]. rewrite Z2Nat.id in Hm, Hrem by lia.
  set (mr := round_nearest_even (shr_m mrs) (loc_of_shr_record mrs)) in *.
  destruct Hround as [Hmr Hnear].
  assert (Hpow : 0 < 2 ^ (D - 53)) by (apply Z.pow_pos_nonneg; lia).
  assert (Hm1 : 2 ^ 52 <= shr_m mrs < 2 ^ 53).
  { assert (H1 : 2 ^ (D - 1) = 2 ^ 52 * 2 ^ (D - 53))
      by (rewrite <- Z.pow_add_r by lia; f_equal; lia).
    assert (H2 : 2 ^ D = 2 ^ 53 * 2 ^ (D - 53))
      by (rewrite <- Z.pow_add_r by lia; f_equal; lia).
    rewrite H1, H2 in Hmx.
    set (P := 2 ^ (D - 53)) in *. clearbody P.
    set (m1 := shr_m mrs) in *. clearbody m1. split.
    - destruct (Z_lt_le_dec m1 (2 ^ 52)) as [Hc|Hc]; [|exact Hc].
      assert ((m1 + 1) * P <= 2 ^ 52 * P) by (apply Z.mul_le_mono_nonneg_r; lia).
      lia.
    - destruct (Z_lt_le_dec m1 (2 ^ 53)) as [Hc|Hc]; [exact Hc|].
      assert (2 ^ 53 * P <= m1 * P) by (apply Z.mul_le_mono_nonneg_r; lia).
      lia. }
  assert (Hshift : fexp 53 1024 (D + ex) - ex = D - 53) by (unfold fexp, emin; lia).
  unfold binary_round_aux, shr_fexp. fold D. rewrite Hshift.
  cbn [shr_record_of_loc]. rewrite Hshr. fold mr.
  destruct (Z_lt_le_dec mr (2 ^ 53)) as [Hlt|Hge].
  - destruct mr as [|q|q] eqn:Emr; try lia.
    assert (Hq : Zdigits2 (Z.pos q) = 53) by (apply digits_unique; simpl in *; lia).
    rewrite Hq.
    assert (Hshift2 : fexp 53 1024 (53 + (ex + (D - 53))) - (ex + (D - 53)) = 0)
      by (unfold fexp, emin; lia).
    rewrite Hshift2. cbn [shr shr_m].
    assert (Hle : (ex + (D - 53) <=? 1024 - 53) = true) by (apply Z.leb_le; lia).
    rewrite Hle.
    exists q, (ex + (D - 53)), (Z.pos q).
    rewrite Z.sub_diag, Z.pow_0_r, Z.mul_1_r.
    split; [reflexivity|]. split; [exact Hq|]. split; [lia|]. split; [reflexivity|].
    exact Hnear.
  - assert (Emr : mr = 2 ^ 53) by lia.
    rewrite Emr in *.
    change (Zdigits2 (2 ^ 53)) with 54.
    assert (Hshift2 : fexp 53 1024 (54 + (ex + (D - 53))) - (ex + (D - 53)) = 1)
      by (unfold fexp, emin; lia).
    rewrite Hshift2.
    change (shr {| shr_m := 2 ^ 53; shr_r := false; shr_s := false |} (ex + (D - 53)) 1)
      with ({| shr_m := 2 ^ 52; shr_r := false; shr_s := false |}, ex + (D - 53) + 1).
    cbn [shr_m].
    assert (Hle : (ex + (D - 53) + 1 <=? 1024 - 53) = true) by (apply Z.leb_le; lia).
    change (2 ^ 52) with (Z.pos (2 ^ 52)). cbv iota. rewrite Hle.
    exists (2 ^ 52)%positive, (ex + (D - 53) + 1), (2 ^ 53).
    split; [reflexivity|]. split; [reflexivity|]. split; [lia|].
    split; [|exact Hnear].
    replace (ex + (D - 53) + 1 - (ex + (D - 53))) with 1 by lia. reflexivity.
Qed.

Lemma pos_iter_xO p q : Z.pos (Pos.iter xO p q) = Z.pos p * 2 ^ Z.pos q.
Proof.
  induction q as [|q IH] using Pos.peano_ind.
  - simpl Pos.iter. rewrite (Pos2Z.inj_xO p). change (2 ^ 1) with 2. lia.
  - rewrite Pos.iter_succ, (Pos2Z.inj_xO (Pos.iter xO p q)), IH, Pos2Z.inj_succ,
      Z.pow_succ_r by lia. lia.
Qed.

(* Two positive numbers with 53-digit mantissas compare as their values do. *)
Lemma SFltb_canonical m1 e1 m2 e2 s :
  Zdigits2 (Z.pos m1) = 53 -> Zdigits2 (Z.pos m2) = 53 ->
  0 <= e1 + s -> 0 <= e2 + s ->
  SFltb (S754_finite false m1 e1) (S754_finite false m2 e2)
  = (Z.pos m1 * 2 ^ (e1 + s) <? Z.pos m2 * 2 ^ (e2 + s)).
Proof.
  intros H1 H2 Hs1 Hs2.
  pose proof (digits_bounds m1) as B1. pose proof (digits_bounds m2) as B2.
  rewrite H1 in B1. rewrite H2 in B2.
  change (2 ^ (53 - 1)) with 4503599627370496 in *.
  change (2 ^ 53) with 9007199254740992 in *.
  unfold SFltb, SFcompare.
  destruct (Z.compare_spec e1 e2) as [He|He|He].
  - subst e2. rewrite Pos.compare_cont_spec. simpl Pos.switch_Eq.
    assert (Hp : 0 < 2 ^ (e1 + s)) by (apply Z.pow_pos_nonneg; lia).
    set (P := 2 ^ (e1 + s)) in *. clearbody P.
    destruct (Pos.compare_spec m1 m2) as [Hm|Hm|Hm]; symmetry.
    + subst. apply Z.ltb_irrefl.
    + apply Z.ltb_lt. apply Z.mul_lt_mono_pos_r; [exact Hp|]. lia.
    + apply Z.ltb_ge. apply Z.mul_le_mono_nonneg_r; lia.
  - symmetry. apply Z.ltb_lt.
    replace (e2 + s) with ((e2 - e1) + (e1 + s)) by lia.
    rewrite (Z.pow_add_r 2 (e2 - e1) (e1 + s)) by lia.
    assert (Hp : 0 < 2 ^ (e1 + s)) by (apply Z.pow_pos_nonneg; lia).
    assert (Hq : 2 ^ 1 <= 2 ^ (e2 - e1)) by (apply Z.pow_le_mono_r; lia).
    change (2 ^ 1) with 2 in Hq.
    set (P := 2 ^ (e1 + s)) in *. set (Q := 2 ^ (e2 - e1)) in *. clearbody P Q.
    rewrite Z.mul_assoc. apply Z.mul_lt_mono_pos_r; [exact Hp|]. nia.
  - symmetry. apply Z.ltb_ge.
    replace (e1 + s) with ((e1 - e2) + (e2 + s)) by lia.
    rewrite (Z.pow_add_r 2 (e1 - e2) (e2 + s)) by lia.
    assert (Hp : 0 < 2 ^ (e2 + s)) by (apply Z.pow_pos_nonneg; lia).
    assert (Hq : 2 ^ 1 <= 2 ^ (e1 - e2)) by (apply Z.pow_le_mono_r; lia).
    change (2 ^ 1) with 2 in Hq.
    set (P := 2 ^ (e2 + s)) in *. set (Q := 2 ^ (e1 - e2)) in *. clearbody P Q.
    rewrite Z.mul_assoc. apply Z.mul_le_mono_nonneg_r; [lia|]. nia.
Qed.

Lemma binary64_of_nat_value (n : nat) :
  (0 < n)%nat -> Z.of_nat n < 2 ^ 53 ->
  exists mf ef,
    binary64_of_nat n = S754_finite false mf ef
    /\ Zdigits2 (Z.pos mf) = 53
    /\ -52 <= ef
    /\ Z.pos mf * 2 ^ (ef + 200) = Z.of_nat n * 2 ^ 200.
Proof.
  intros Hpos Hlt. unfold binary64_of_nat, binary_normalize.
  destruct (Z.of_nat n) as [|p|p] eqn:En; try lia.
  pose proof (digits_bounds p) as Hp.
  set (d := Zdigits2 (Z.pos p)) in *.
  assert (Hd : 1 <= d <= 53).
  { split; [subst d; cbn [Zdigits2]; lia|].
    destruct (Z_lt_le_dec 53 d) as [Hc|Hc]; [|exact Hc].
    assert (2 ^ 53 <= 2 ^ (d - 1)) by (apply Z.pow_le_mono_r; lia). lia. }
  unfold binary_round.
  change (Z.pos (digits2_pos p)) with d.
  assert (Halign : exists mz,
            shl_align p 0 (fexp 53 1024 (d + 0)) = (mz, d - 53)
            /\ Z.pos mz = Z.pos p * 2 ^ (53 - d)).
  { unfold shl_align, fexp, emin.
    replace (Z.max (d + 0 - 53) (3 - 1024 - 53) - 0) with (d - 53) by lia.
    replace (Z.max (d + 0 - 53) (3 - 1024 - 53)) with (d - 53) by lia.
    destruct (d - 53) as [|q|q] eqn:Eq; try lia.
    - exists p. split; [f_equal; lia|].
      replace (53 - d) with 0 by lia. simpl. lia.
    - exists (Pos.iter xO p q). split; [reflexivity|].
      rewrite pos_iter_xO. f_equal. f_equal. lia. }
  destruct Halign as [mz [-> Hmz]].
  assert (Hdz : Zdigits2 (Z.pos mz) = 53).
  { apply digits_unique. rewrite Hmz.
    assert (H1 : 2 ^ (53 - 1) = 2 ^ (d - 1) * 2 ^ (53 - d))
      by (rewrite <- Z.pow_add_r by lia; f_equal; lia).
    assert (H2 : 2 ^ 53 = 2 ^ d * 2 ^ (53 - d))
      by (rewrite <- Z.pow_add_r by lia; f_equal; lia).
    rewrite H1, H2.
    assert (0 < 2 ^ (53 - d)) by (apply Z.pow_pos_nonneg; lia).
    split; [apply Z.mul_le_mono_nonneg_r | apply Z.mul_lt_mono_pos_r]; lia. }
  destruct (binary_round_aux_normal mz (d - 53)) as [mf [ef [mr [Hr [Hdf [Hef [Hv [Hn _]]]]]]]];
    rewrite ?Hdz; try lia.
  rewrite Hdz in *. replace (d - 53 + (53 - 53)) with (d - 53) in * by lia.
  change (2 ^ (53 - 53)) with 1 in Hn.
  assert (Hmr : mr = Z.pos mz) by lia.
  exists mf, ef. split; [exact Hr|]. split; [exact Hdf|]. split; [lia|].
  replace (ef + 200) with ((ef - (d - 53)) + (d - 53 + 200)) by lia.
  rewrite Z.pow_add_r by lia. rewrite Z.mul_assoc, Hv, Hmr, Hmz.
  rewrite <- Z.mul_assoc, <- Z.pow_add_r by lia. f_equal. f_equal. lia.
Qed.

(* The arithmetic behind the threshold: 0.1 is read as T / 2^56 with
   10 T = 2^56 + 4. *)
Lemma tenth_arithmetic (x n A P : Z) :
  0 < x -> 0 < n -> 2 <= A -> x * A < 2 ^ 53 -> 0 < P <= 2 ^ 53 ->
  (2 * (x * A * 7205759403792794) + P < n * 2 ^ 57 * A) <-> x < 10 * n.
Proof.
  change (2 ^ 53) with 9007199254740992.
  change (2 ^ 57) with 144115188075855872.
  intros Hx Hn HA HxA HP. split.
  - intros H. destruct (Z_lt_le_dec x (10 * n)) as [Hc|Hc]; [exact Hc|].
    assert (10 * n * A <= x * A) by (apply Z.mul_le_mono_nonneg_r; lia). lia.
  - intros H.
    assert ((x + 1) * A <= 10 * n * A) by (apply Z.mul_le_mono_nonneg_r; lia). lia.
Qed.

Lemma exceedsThreshold_exact (invalid total : nat) :
  Z.of_nat total < 2 ^ 52 -> (invalid <= total)%nat ->
  exceedsThreshold invalid total = (total <? 10 * invalid)%nat.
Proof.
  intros Hbound Hle. unfold exceedsThreshold.
  destruct (Nat.eq_dec total 0%nat) as [->|Ht].
  { assert (invalid = 0%nat) as -> by lia. reflexivity. }
  destruct (binary64_of_nat_value total) as [mt [et [Et [Hdt [Het Hvt]]]]];
    [lia | change (2 ^ 53) with (2 * 2 ^ 52); lia |].
  rewrite Et. unfold binary64_tenth.
  change (SFmul 53 1024 (S754_finite false mt et) (S754_finite false 7205759403792794 (-56)))
    with (binary_round_aux 53 1024 false (Z.pos (mt * 7205759403792794)) (et + -56) loc_Exact).
  pose proof (digits_bounds mt) as Bt. rewrite Hdt in Bt.
  change (2 ^ (53 - 1)) with 4503599627370496 in Bt.
  change (2 ^ 53) with 9007199254740992 in Bt.
  (* the exponent of the length is negative *)
  assert (Het0 : et < 0).
  { destruct (Z_lt_le_dec et 0) as [Hc|Hc]; [exact Hc|exfalso].
    assert (2 ^ 200 <= 2 ^ (et + 200)) by (apply Z.pow_le_mono_r; lia).
    assert (Hp : 0 < 2 ^ 200) by (apply Z.pow_pos_nonneg; lia).
    change (2 ^ 52) with 4503599627370496 in Hbound.
    set (Q := 2 ^ 200) in *. set (R := 2 ^ (et + 200)) in *. clearbody Q R. nia. }
  set (A := 2 ^ (- et)).
  assert (HA : 2 <= A).
  { change 2 with (2 ^ 1) at 1. apply Z.pow_le_mono_r; lia. }
  assert (Hmt : Z.pos mt = Z.of_nat total * A).
  { assert (Hs : 2 ^ 200 = A * 2 ^ (et + 200))
      by (unfold A; rewrite <- Z.pow_add_r by lia; f_equal; lia).
    rewrite Hs in Hvt.
    assert (Hp : 0 < 2 ^ (et + 200)) by (apply Z.pow_pos_nonneg; lia).
    apply (Z.mul_reg_r _ _ (2 ^ (et + 200))); lia. }
  (* the product has 105 or 106 digits *)
  pose proof (digits_bounds (mt * 7205759403792794)) as BM.
  set (D := Zdigits2 (Z.pos (mt * 7205759403792794))) in *.
  rewrite Pos2Z.inj_mul in BM.
  assert (HD : 105 <= D <= 106).
  { split.
    - destruct (Z_lt_le_dec D 105) as [Hc|Hc]; [exfalso|exact Hc].
      assert (2 ^ D <= 2 ^ 104) by (apply Z.pow_le_mono_r; lia).
      change (2 ^ 104) with (4503599627370496 * 4503599627370496) in *. nia.
    - destruct (Z_lt_le_dec 106 D) as [Hc|Hc]; [exfalso|exact Hc].
      assert (2 ^ 106 <= 2 ^ (D - 1)) by (apply Z.pow_le_mono_r; lia).
      change (2 ^ 106) with (9007199254740992 * 9007199254740992) in *. nia. }
  destruct (binary_round_aux_normal (mt * 7205759403792794) (et + -56))
    as [mf [ef [mr [Er [Hdf [Hef [Hv [Hn [Hlo Hhi]]]]]]]]]; fold D; try lia.
  fold D in Hef, Hv, Hn, Hlo, Hhi. rewrite Pos2Z.inj_mul in Hn, Hlo, Hhi.
  rewrite Er.
  destruct (Nat.eq_dec invalid 0%nat) as [->|Hi].
  { simpl. symmetry. apply Nat.ltb_ge. lia. }
  destruct (binary64_of_nat_value invalid) as [mi [ei [Ei [Hdi [Hei Hvi]]]]];
    [lia | change (2 ^ 53) with (2 * 2 ^ 52); lia |].
  rewrite Ei, (SFltb_canonical mf ef mi ei 200) by (assumption || lia).
  rewrite Hvi.
  set (e1 := et + -56 + (D - 53)) in *.
  assert (Hsv : Z.pos mf * 2 ^ (ef + 200) = mr * 2 ^ (e1 + 200)).
  { replace (ef + 200) with ((ef - e1) + (e1 + 200)) by lia.
    rewrite Z.pow_add_r by lia. rewrite Z.mul_assoc, Hv. reflexivity. }
  rewrite Hsv.
  set (N' := Z.of_nat invalid * 2 ^ (- e1)).
  assert (HN : Z.of_nat invalid * 2 ^ 200 = N' * 2 ^ (e1 + 200)).
  { unfold N'. rewrite <- Z.mul_assoc, <- Z.pow_add_r by lia. f_equal. f_equal. lia. }
  rewrite HN.
  assert (Hp : 0 < 2 ^ (e1 + 200)) by (apply Z.pow_pos_nonneg; lia).
  assert (HevenN : Z.even N' = true).
  { unfold N'. replace (- e1) with (Z.succ (- e1 - 1)) by lia.
    rewrite Z.pow_succ_r by lia. rewrite Z.even_mul, Z.even_mul. simpl.
    apply orb_true_r. }
  assert (HP : 0 < 2 ^ (D - 53) <= 2 ^ 53).
  { split; [apply Z.pow_pos_nonneg; lia | apply Z.pow_le_mono_r; lia]. }
  assert (HNP : 2 * N' * 2 ^ (D - 53) = Z.of_nat invalid * 2 ^ 57 * A).
  { unfold N', A, e1.
    replace (2 * (Z.of_nat invalid * 2 ^ (- (et + -56 + (D - 53)))) * 2 ^ (D - 53))
      with (Z.of_nat invalid * (2 ^ 1 * 2 ^ (- (et + -56 + (D - 53))) * 2 ^ (D - 53)))
      by (change (2 ^ 1) with 2; ring).
    rewrite <- !Z.mul_assoc. f_equal.
    rewrite <- !Z.pow_add_r by lia. f_equal. lia. }
  set (P := 2 ^ (D - 53)) in *.
  assert (Hround : mr < N' <-> 2 * (Z.pos mt * 7205759403792794) + P < 2 * N' * P).
  { clearbody P N'. split.
    - intros Hlt.
      assert (Hc : 2 * (Z.pos mt * 7205759403792794) <> (2 * mr + 1) * P \/ mr <= N' - 2).
      { destruct (Z.eq_dec (2 * (Z.pos mt * 7205759403792794)) ((2 * mr + 1) * P)) as [E|E];
          [right | left; exact E].
        apply Hhi in E.
        destruct (Z.eq_dec mr (N' - 1)) as [E'|E']; [|lia].
        rewrite E', Z.even_sub, HevenN in E. discriminate E. }
      assert ((2 * mr + 1) * P <= (2 * N' - 1) * P)
        by (apply Z.mul_le_mono_nonneg_r; lia).
      destruct Hc as [Hc|Hc]; [lia|].
      assert ((2 * mr + 1) * P <= (2 * N' - 3) * P)
        by (apply Z.mul_le_mono_nonneg_r; lia).
      lia.
    - intros Hlt. destruct (Z_lt_le_dec mr N') as [Hc|Hc]; [exact Hc|exfalso].
      assert ((2 * N' - 1) * P <= (2 * mr - 1) * P)
        by (apply Z.mul_le_mono_nonneg_r; lia).
      lia. }
  rewrite HNP, Hmt in Hround.
  rewrite (tenth_arithmetic (Z.of_nat total) (Z.of_nat invalid) A P) in Hround;
    try lia.
  destruct (Z.ltb_spec (mr * 2 ^ (e1 + 200)) (N' * 2 ^ (e1 + 200))) as [Hc|Hc];
    symmetry; [apply Nat.ltb_lt | apply Nat.ltb_ge].
  - apply Z.mul_lt_mono_pos_r in Hc; [|exact Hp]. apply Hround in Hc. lia.
  - apply Z.mul_le_mono_pos_r in Hc; [|exact Hp].
    destruct (Z_lt_le_dec (Z.of_nat total) (10 * Z.of_nat invalid)) as [Hx|Hx]; [|lia].
    apply Hround in Hx. lia.
Qed.

End Binary64Facts.

(** ** Detecting the encoding *)

Section DetectionFacts.

Import JS Xlsx.

Context {codec : Codec} {detector : Detector}.

Lemma byte_eqb_spec (x y : byte) : reflect (x = y) (Byte.eqb x y).
Proof.
  destruct (Byte.eqb x y) eqn:E; constructor.
  - apply Byte.byte_dec_bl. exact E.
  - intros ->. rewrite Byte.byte_dec_lb in E; [discriminate | reflexivity].
Qed.

Lemma bufferEquals_eq (a b : buffer) : bufferEquals a b = true <-> a = b.
Proof.
  revert b. induction a as [|x a IH]; intros [|y b]; simpl;
    try (split; [discriminate | discriminate]); [tauto|].
  rewrite andb_true_iff, IH. destruct (byte_eqb_spec x y) as [->|Hne].
  - split; [intros [_ ->]; reflexivity | intros H; injection H; auto].
  - split; [intros [H _]; discriminate | intros H; injection H; contradiction].
Qed.

Lemma roundTrips_reproduces buffer enc :
  roundTrips buffer enc = true <-> reproduces buffer enc.
Proof.
  unfold roundTrips, reproduces. split.
  - destruct (iconv_decode buffer enc) as [decoded|]; [|discriminate].
    destruct (iconv_encode decoded enc) as [reEncoded|] eqn:E; [|discriminate].
    intros H. apply bufferEquals_eq in H as <-. eauto.
  - intros [decoded [-> ->]]. apply bufferEquals_eq. reflexivity.
Qed.

Lemma roundTrips_false buffer enc :
  roundTrips buffer enc = false <-> ~ reproduces buffer enc.
Proof.
  rewrite <- roundTrips_reproduces. destruct (roundTrips buffer enc); split;
    congruence.
Qed.

Lemma firstRoundTrip_first buffer pre enc post :
  reproduces buffer enc ->
  (forall e, e ∈ pre -> ~ reproduces buffer e) ->
  firstRoundTrip buffer (pre ++ enc :: post) = Some enc.
Proof.
  intros Henc. induction pre as [|e pre IH]; intros Hpre; simpl.
  - apply roundTrips_reproduces in Henc. rewrite Henc. reflexivity.
  - assert (He : roundTrips buffer e = false)
      by (apply roundTrips_false, Hpre; left).
    rewrite He. apply IH. intros e' He'. apply Hpre. right. exact He'.
Qed.

Lemma firstRoundTrip_none buffer encs :
  (forall e, e ∈ encs -> ~ reproduces buffer e) ->
  firstRoundTrip buffer encs = None.
Proof.
  induction encs as [|e encs IH]; intros H; simpl; [reflexivity|].
  assert (He : roundTrips buffer e = false) by (apply roundTrips_false, H; left).
  rewrite He. apply IH. intros e' He'. apply H. right. exact He'.
Qed.

Lemma firstRoundTrip_some buffer encs enc :
  firstRoundTrip buffer encs = Some enc ->
  exists pre post, encs = pre ++ enc :: post
    /\ reproduces buffer enc
    /\ forall e, e ∈ pre -> ~ reproduces buffer e.
Proof.
  induction encs as [|e encs IH]; simpl; [discriminate|].
  destruct (roundTrips buffer e) eqn:He.
  - intros H. injection H as ->. exists [], encs.
    split; [reflexivity|]. split; [apply roundTrips_reproduces, He|].
    intros e' He'. inversion He'.
  - intros H. destruct (IH H) as [pre [post [-> [Henc Hpre]]]].
    exists (e :: pre), post. split; [reflexivity|]. split; [exact Henc|].
    intros e' He'. apply elem_of_cons in He' as [->|He'].
    + apply roundTrips_false, He.
    + apply Hpre, He'.
Qed.

Lemma firstRoundTrip_none_inv buffer encs :
  firstRoundTrip buffer encs = None ->
  forall e, e ∈ encs -> ~ reproduces buffer e.
Proof.
  induction encs as [|e encs IH]; simpl; intros H e' He'; [inversion He'|].
  destruct (roundTrips buffer e) eqn:He; [discriminate|].
  apply elem_of_cons in He' as [->|He'].
  - apply roundTrips_false, He.
  - apply IH; assumption.
Qed.

(** On three bytes or more the sniffer compares the leading bytes; on a
    shorter buffer it answers nothing. *)
Lemma sniffBOM_long b0 b1 b2 rest :
  sniffBOM (b0 :: b1 :: b2 :: rest) =
    if Byte.eqb b0 xef && Byte.eqb b1 xbb && Byte.eqb b2 xbf then Some "utf8"%string
    else if Byte.eqb b0 xfe && Byte.eqb b1 xff then Some "utf16be"%string
    else if Byte.eqb b0 xff && Byte.eqb b1 xfe then Some "utf16le"%string
    else None.
Proof. reflexivity. Qed.

Lemma sniffBOM_short buffer : length buffer < 3 -> sniffBOM buffer = None.
Proof.
  intros H. unfold sniffBOM.
  destruct (3 <=? length buffer) eqn:E; [|reflexivity].
  apply Nat.leb_le in E. lia.
Qed.

Lemma marked_cons buffer signature :
  marked buffer signature <->
  exists b0 b1 b2 rest, buffer = b0 :: b1 :: b2 :: rest
                        /\ signature `prefix_of` buffer.
Proof.
  unfold marked. split.
  - intros [Hlen Hpre].
    destruct buffer as [|b0 [|b1 [|b2 rest]]]; simpl in Hlen; try lia.
    eauto 6.
  - intros [b0 [b1 [b2 [rest [-> Hpre]]]]]. split; [simpl; lia | exact Hpre].
Qed.

Lemma sniffBOM_some buffer enc :
  sniffBOM buffer = Some enc <->
  exists signature, (signature, enc) ∈ signatures /\ marked buffer signature.
Proof.
  split.
  - destruct buffer as [|b0 [|b1 [|b2 rest]]]; try discriminate.
    rewrite sniffBOM_long.
    destruct (byte_eqb_spec b0 xef) as [->|]; simpl;
      [destruct (byte_eqb_spec b1 xbb) as [->|]; simpl;
         [destruct (byte_eqb_spec b2 xbf) as [->|]; simpl|]|];
      try (intros H; injection H as <-; exists [xef; xbb; xbf];
           split; [set_solver | split; [simpl; lia | exists rest; reflexivity]]);
      try discriminate.
    all: destruct (byte_eqb_spec b0 xfe) as [->|]; simpl;
      [destruct (byte_eqb_spec b1 xff) as [->|]; simpl|];
      try (intros H; injection H as <-; exists [xfe; xff];
           split; [set_solver | split; [simpl; lia | exists (b2 :: rest); reflexivity]]);
      try discriminate.
    all: destruct (byte_eqb_spec b0 xff) as [->|]; simpl;
      [destruct (byte_eqb_spec b1 xfe) as [->|]; simpl|];
      try (intros H; injection H as <-; exists [xff; xfe];
           split; [set_solver | split; [simpl; lia | exists (b2 :: rest); reflexivity]]);
      try discriminate.
  - intros [signature [Hin Hm]].
    apply marked_cons in Hm as [b0 [b1 [b2 [rest [-> [k Hk]]]]]].
    rewrite sniffBOM_long.
    unfold signatures in Hin.
    repeat (apply elem_of_cons in Hin as [Hin|Hin]);
      [| | |inversion Hin];
      injection Hin as -> ->; simpl in Hk; injection Hk as -> -> ?; subst;
      reflexivity.
Qed.

Lemma sniffBOM_none buffer : sniffBOM buffer = None <-> unmarked buffer.
Proof.
  unfold unmarked. split.
  - intros H signature enc Hin Hm.
    assert (Hs : sniffBOM buffer = Some enc) by (apply sniffBOM_some; eauto).
    congruence.
  - intros H. destruct (sniffBOM buffer) as [enc|] eqn:E; [|reflexivity].
    apply sniffBOM_some in E as [signature [Hin Hm]].
    destruct (H _ _ Hin Hm).
Qed.

Lemma lowConfidence_unsure result : lowConfidence result = true <-> unsure result.
Proof. destruct result as [d|]; simpl; tauto. Qed.

Lemma lowConfidence_confident d : lowConfidence (Some d) = false <-> confident d.
Proof. reflexivity. Qed.

Lemma signature_of_encoding signature enc :
  (signature, enc) ∈ signatures ->
  (enc = "utf8"%string /\ signature = [xef; xbb; xbf])
  \/ (enc = "utf16be"%string /\ signature = [xfe; xff])
  \/ (enc = "utf16le"%string /\ signature = [xff; xfe]).
Proof.
  unfold signatures. intros Hin.
  repeat (apply elem_of_cons in Hin as [Hin|Hin]);
    [| | |inversion Hin]; injection Hin as -> ->; auto.
Qed.

Lemma sniffBOM_marked buffer signature enc :
  (signature, enc) ∈ signatures ->
  sniffBOM buffer = Some enc <-> marked buffer signature.
Proof.
  intros Hin. rewrite sniffBOM_some. split.
  - intros [signature' [Hin' Hm]].
    apply signature_of_encoding in Hin as [[-> ->]|[[-> ->]|[-> ->]]];
      apply signature_of_encoding in Hin' as [[? ->]|[[? ->]|[? ->]]];
      try discriminate; exact Hm.
  - intros Hm. eauto.
Qed.

(** C3, as amended.  The sniffer answers utf8, utf16be or utf16le exactly
    when the buffer has at least three bytes and begins with EF BB BF,
    FE FF or FF FE; a buffer of fewer than three bytes yields no match,
    whatever its bytes. *)
Theorem sniffBOM_signatures (buffer : buffer) :
  (sniffBOM buffer = Some "utf8"%string <-> marked buffer [xef; xbb; xbf])
  /\ (sniffBOM buffer = Some "utf16be"%string <-> marked buffer [xfe; xff])
  /\ (sniffBOM buffer = Some "utf16le"%string <-> marked buffer [xff; xfe])
  /\ (length buffer < 3 -> sniffBOM buffer = None)
  /\ (sniffBOM buffer = None <-> unmarked buffer).
Proof.
  split; [|split; [|split; [|split]]].
  - apply sniffBOM_marked. unfold signatures. set_solver.
  - apply sniffBOM_marked. unfold signatures. set_solver.
  - apply sniffBOM_marked. unfold signatures. set_solver.
  - apply sniffBOM_short.
  - apply sniffBOM_none.
Qed.

(** C2, as amended.  The encoding [detectFileEncoding] selects for a
    buffer is the one the priority chain gives: the normalised label of a
    detection whose confidence is not below 0.85; otherwise the encoding
    of the byte-order mark, looked for only in buffers of three bytes or
    more; otherwise the first trial encoding that reproduces the buffer;
    otherwise utf8.  A detector that throws, or a confident detection
    without a usable label, also ends in utf8. *)
Theorem detection_follows_priority_chain (buffer : buffer) (enc : string) :
  selected buffer enc <-> detectBufferEncoding buffer = enc.
Proof.
  unfold detectBufferEncoding. split.
  - intros [d raw enc' Hd Hc Hraw Hn
           | result signature enc' Hd Hu Hin Hm
           | result pre enc' post Hd Hu Hm Hl Henc Hpre
           | result Hd Hu Hm Hall
           | e Hd
           | d Hd Hc Hraw
           | d raw e Hd Hc Hraw Hn]; rewrite Hd.
    + apply lowConfidence_confident in Hc. rewrite Hc. simpl.
      rewrite Hraw, Hn. reflexivity.
    + apply lowConfidence_unsure in Hu. rewrite Hu.
      assert (Hs : sniffBOM buffer = Some enc') by (apply sniffBOM_some; eauto).
      rewrite Hs. reflexivity.
    + apply lowConfidence_unsure in Hu. rewrite Hu.
      apply sniffBOM_none in Hm. rewrite Hm, Hl.
      rewrite firstRoundTrip_first by assumption. reflexivity.
    + apply lowConfidence_unsure in Hu. rewrite Hu.
      apply sniffBOM_none in Hm. rewrite Hm.
      rewrite firstRoundTrip_none by assumption. reflexivity.
    + reflexivity.
    + apply lowConfidence_confident in Hc. rewrite Hc. simpl.
      rewrite Hraw. reflexivity.
    + apply lowConfidence_confident in Hc. rewrite Hc. simpl.
      rewrite Hraw, Hn. reflexivity.
  - destruct (jschardet_detect buffer) as [result|e] eqn:Hd;
      [|intros <-; eapply selected_detector_failed; exact Hd].
    destruct (lowConfidence result) eqn:Hlow.
    + apply lowConfidence_unsure in Hlow.
      destruct (sniffBOM buffer) as [bom|] eqn:Hs.
      * intros <-. apply sniffBOM_some in Hs as [signature [Hin Hm]].
        eapply selected_bom; eassumption.
      * apply sniffBOM_none in Hs.
        destruct (firstRoundTrip buffer testEncodings) as [trial|] eqn:Hf; intros <-.
        -- apply firstRoundTrip_some in Hf as [pre [post [Hl [Henc Hpre]]]].
           eapply selected_round_trip; eassumption.
        -- eapply selected_default; try eassumption.
           apply firstRoundTrip_none_inv. exact Hf.
    + destruct result as [d|]; [|discriminate].
      apply lowConfidence_confident in Hlow. simpl.
      destruct (encoding d) as [raw|] eqn:Hraw;
        [|intros <-; eapply selected_label_missing; eassumption].
      destruct (normalizeLabel raw) as [enc'|e] eqn:Hn; intros <-.
      * eapply selected_confident; eassumption.
      * eapply selected_label_failed; eassumption.
Qed.

End DetectionFacts.

(** ** Decoding *)

Section DecodingFacts.

Import JS Xlsx.

Context {codec : Codec} {detector : Detector} {fs : FileSystem} {sink : Sink}.

Lemma matchAll_some cls s l :
  matchAll cls s = Some l -> l = List.filter cls s /\ 0 < length l.
Proof.
  unfold matchAll. destruct (List.filter cls s) as [|m ms]; [discriminate|].
  intros H. injection H as <-. split; [reflexivity | simpl; lia].
Qed.

Lemma matchAll_none cls s : matchAll cls s = None -> List.filter cls s = [].
Proof.
  unfold matchAll. destruct (List.filter cls s); [reflexivity | discriminate].
Qed.

Lemma tryFallbacks_first buffer encoding pre fb post content :
  fb <> encoding ->
  iconv_decode buffer fb = Some content ->
  (forall e, e ∈ pre -> e <> encoding -> iconv_decode buffer e = None) ->
  tryFallbacks buffer encoding (pre ++ fb :: post) = Some content.
Proof.
  intros Hne Hfb. induction pre as [|e pre IH]; intros Hpre; simpl.
  - apply String.eqb_neq in Hne. rewrite Hne, Hfb. reflexivity.
  - assert (IH' : tryFallbacks buffer encoding (pre ++ fb :: post) = Some content).
    { apply IH. intros e' He'. apply Hpre. right. exact He'. }
    destruct (String.eqb_spec e encoding) as [_|He]; [exact IH'|].
    rewrite (Hpre e) by (auto; left). exact IH'.
Qed.

Lemma tryFallbacks_none buffer encoding encs :
  (forall e, e ∈ encs -> e <> encoding -> iconv_decode buffer e = None) ->
  tryFallbacks buffer encoding encs = None.
Proof.
  induction encs as [|e encs IH]; intros H; simpl; [reflexivity|].
  assert (IH' : tryFallbacks buffer encoding encs = None).
  { apply IH. intros e' He'. apply H. right. exact He'. }
  destruct (String.eqb_spec e encoding) as [_|He]; [exact IH'|].
  rewrite (H e) by (auto; left). exact IH'.
Qed.

Lemma tryAlternatives_first buffer invalidChars pre alt post altContent :
  0 < length invalidChars ->
  iconv_decode buffer alt = Some altContent ->
  invalidCount altContent < length invalidChars ->
  (forall e t, e ∈ pre -> iconv_decode buffer e = Some t ->
               length invalidChars <= invalidCount t) ->
  tryAlternatives buffer invalidChars (pre ++ alt :: post) = Some altContent.
Proof.
  intros Hpos Halt Hlt. induction pre as [|e pre IH]; intros Hpre; simpl.
  - rewrite Halt. destruct (matchAll invalidChar altContent) as [l|] eqn:E;
      [|reflexivity].
    apply matchAll_some in E as [-> _]. fold (invalidCount altContent).
    apply Nat.ltb_lt in Hlt. rewrite Hlt. reflexivity.
  - assert (IH' : tryAlternatives buffer invalidChars (pre ++ alt :: post)
                  = Some altContent).
    { apply IH. intros e' t He'. apply Hpre. right. exact He'. }
    destruct (iconv_decode buffer e) as [t|] eqn:Ee; [|exact IH'].
    assert (Ht : length invalidChars <= invalidCount t)
      by (apply (Hpre e); [left | exact Ee]).
    destruct (matchAll invalidChar t) as [l|] eqn:E.
    + apply matchAll_some in E as [-> _]. fold (invalidCount t).
      apply Nat.ltb_ge in Ht. rewrite Ht. exact IH'.
    + apply matchAll_none in E. unfold invalidCount in Ht. rewrite E in Ht.
      simpl in Ht. lia.
Qed.

Lemma tryAlternatives_none buffer invalidChars encs :
  0 < length invalidChars ->
  (forall e t, e ∈ encs -> iconv_decode buffer e = Some t ->
               length invalidChars <= invalidCount t) ->
  tryAlternatives buffer invalidChars encs = None.
Proof.
  intros Hpos. induction encs as [|e encs IH]; intros H; simpl; [reflexivity|].
  assert (IH' : tryAlternatives buffer invalidChars encs = None).
  { apply IH. intros e' t He'. apply H. right. exact He'. }
  destruct (iconv_decode buffer e) as [t|] eqn:Ee; [|exact IH'].
  assert (Ht : length invalidChars <= invalidCount t)
    by (apply (H e); [left | exact Ee]).
  destruct (matchAll invalidChar t) as [l|] eqn:E.
  - apply matchAll_some in E as [-> _]. fold (invalidCount t).
    apply Nat.ltb_ge in Ht. rewrite Ht. exact IH'.
  - apply matchAll_none in E. unfold invalidCount in Ht. rewrite E in Ht.
    simpl in Ht. lia.
Qed.

(** C1, as amended.  When the first decode succeeds, the decoded text is
    replaced only if its invalid characters are strictly more than a
    tenth of its length; it is then replaced by the decoding under the
    first alternative encoding, in the order gbk, big5, shift-jis, that
    has strictly fewer invalid characters, and kept if there is none.
    (The bound on the length is where the binary64 product is known to
    compare as the exact one; no string of the engine comes near it.) *)
Theorem scan_takes_first_better_alternative (buffer : buffer) (encoding : string)
    (content : jsstring) :
  iconv_decode buffer encoding = Some content ->
  (Z.of_nat (length content) < 2 ^ 52)%Z ->
  (10 * invalidCount content <= length content ->
     decodeBuffer buffer encoding = Returned content)
  /\ (length content < 10 * invalidCount content ->
        (forall altContent,
           firstBetterAlternative buffer (invalidCount content) altContent ->
           decodeBuffer buffer encoding = Returned altContent)
        /\ (noBetterAlternative buffer (invalidCount content) ->
            decodeBuffer buffer encoding = Returned content)).
Proof.
  intros Hdec Hbound. unfold decodeBuffer, scanDecoded. rewrite Hdec.
  destruct (matchAll invalidChar content) as [invalidChars|] eqn:E.
  - apply matchAll_some in E as [El Hpos].
    assert (Hn : length invalidChars = invalidCount content)
      by (rewrite El; reflexivity).
    rewrite exceedsThreshold_exact, Hn;
      [|exact Hbound | rewrite El; apply filter_length_le].
    split.
    + intros Hle. apply Nat.ltb_ge in Hle. rewrite Hle. reflexivity.
    + intros Hlt. apply Nat.ltb_lt in Hlt. rewrite Hlt. split.
      * intros altContent [pre [alt [post [Hl [Halt [Hbetter Hpre]]]]]].
        rewrite Hl, (tryAlternatives_first _ _ pre alt post altContent);
          rewrite ?Hn; auto. lia.
      * intros Hnone. rewrite tryAlternatives_none; rewrite ?Hn; auto. lia.
  - apply matchAll_none in E. split; [reflexivity|].
    unfold invalidCount. rewrite E. simpl. lia.
Qed.

Lemma processFile_fold inputDir outputDir csvFiles results :
  fold_left (processFile inputDir outputDir) csvFiles results =
  {| success := success results
       + success (fold_left (processFile inputDir outputDir) csvFiles
                    {| success := 0; failed := 0; total := 0; failedFiles := [] |});
     failed := failed results
       + failed (fold_left (processFile inputDir outputDir) csvFiles
                   {| success := 0; failed := 0; total := 0; failedFiles := [] |});
     total := total results;
     failedFiles := failedFiles results
       ++ failedFiles (fold_left (processFile inputDir outputDir) csvFiles
                         {| success := 0; failed := 0; total := 0; failedFiles := [] |}) |}.
Proof.
  revert results. induction csvFiles as [|f csvFiles IH]; intros results; simpl.
  - destruct results. simpl. rewrite !Nat.add_0_r, app_nil_r. reflexivity.
  - rewrite IH. rewrite (IH (processFile _ _ _ f)).
    unfold processFile.
    destruct (convertCsvToExcel _ _); simpl; f_equal; try lia.
    rewrite <- app_assoc. reflexivity.
Qed.

Lemma processDirectory_counts inputDir outputDir csvFiles :
  processDirectory inputDir outputDir csvFiles =
  {| success := success (fold_left (processFile inputDir outputDir) csvFiles
                    {| success := 0; failed := 0; total := 0; failedFiles := [] |});
     failed := failed (fold_left (processFile inputDir outputDir) csvFiles
                   {| success := 0; failed := 0; total := 0; failedFiles := [] |});
     total := length csvFiles;
     failedFiles := failedFiles (fold_left (processFile inputDir outputDir) csvFiles
                         {| success := 0; failed := 0; total := 0; failedFiles := [] |}) |}.
Proof. unfold processDirectory. rewrite processFile_fold. reflexivity. Qed.

(** A file whose conversion fails counts as one failure; the files before
    and after it are converted as if it were not there. *)
Lemma processDirectory_failed_file inputDir outputDir before csvFile after :
  convertCsvToExcel (path_join inputDir csvFile)
    (path_join outputDir (path_basename csvFile ".csv" +:+ ".xlsx")) = false ->
  processDirectory inputDir outputDir (before ++ csvFile :: after) =
  {| success := success (processDirectory inputDir outputDir before)
                + success (processDirectory inputDir outputDir after);
     failed := failed (processDirectory inputDir outputDir before) + 1
               + failed (processDirectory inputDir outputDir after);
     total := total (processDirectory inputDir outputDir before) + 1
              + total (processDirectory inputDir outputDir after);
     failedFiles := failedFiles (processDirectory inputDir outputDir before)
                    ++ csvFile :: failedFiles (processDirectory inputDir outputDir after) |}.
Proof.
  intros Hfail.
  assert (Hstep : forall results,
    processFile inputDir outputDir results csvFile =
    {| success := success results; failed := S (failed results);
       total := total results; failedFiles := failedFiles results ++ [csvFile] |}).
  { intros results. unfold processFile. rewrite Hfail. reflexivity. }
  rewrite !processDirectory_counts. simpl.
  rewrite fold_left_app. simpl. rewrite Hstep.
  rewrite (processFile_fold _ _ after). simpl. f_equal.
  - lia.
  - rewrite length_app. simpl. lia.
  - rewrite <- app_assoc. reflexivity.
Qed.

(** C7.  If decoding under the selected encoding throws, the fallback
    list utf8, gbk, big5, shift-jis, cp1252 is tried in order without
    the encoding already tried, and the first decoding that does not
    throw is returned; only if all of them throw does decoding fail, and
    then that one file is counted as failed while the other files of the
    directory are converted as usual. *)
Theorem fallbacks_are_tried_in_order (buffer : buffer) (encoding : string) :
  iconv_decode buffer encoding = None ->
  fallbackEncodings = ["utf8"; "gbk"; "big5"; "shift-jis"; "cp1252"]%string
  /\ (forall content,
        firstFallback buffer encoding content ->
        decodeBuffer buffer encoding = Returned content)
  /\ (noFallback buffer encoding ->
        decodeBuffer buffer encoding = Thrown (ReadOrDecodeFailed AllEncodingsFailed)
        /\ forall inputDir outputDir before csvFile after,
             readFileSync (path_join inputDir csvFile) = Some buffer ->
             detectBufferEncoding buffer = encoding ->
             processDirectory inputDir outputDir (before ++ csvFile :: after) =
             {| success := success (processDirectory inputDir outputDir before)
                           + success (processDirectory inputDir outputDir after);
                failed := failed (processDirectory inputDir outputDir before) + 1
                          + failed (processDirectory inputDir outputDir after);
                total := total (processDirectory inputDir outputDir before) + 1
                         + total (processDirectory inputDir outputDir after);
                failedFiles :=
                  failedFiles (processDirectory inputDir outputDir before)
                  ++ csvFile :: failedFiles (processDirectory inputDir outputDir after) |}).
Proof.
  intros Hthrow. split; [reflexivity|]. split.
  - intros content [pre [fb [post [Hl [Hne [Hfb Hpre]]]]]].
    unfold decodeBuffer. rewrite Hthrow, Hl.
    rewrite (tryFallbacks_first _ _ pre fb post content); auto.
  - intros Hnone.
    assert (Hfail : decodeBuffer buffer encoding
                    = Thrown (ReadOrDecodeFailed AllEncodingsFailed)).
    { unfold decodeBuffer. rewrite Hthrow, tryFallbacks_none; auto. }
    split; [exact Hfail|].
    intros inputDir outputDir before csvFile after Hread Henc.
    apply processDirectory_failed_file.
    unfold convertCsvToExcel, detectFileEncoding, readAndDecodeCSV.
    rewrite Hread, Henc, Hfail. reflexivity.
Qed.

(** C9.  When the first decode throws and a fallback encoding decodes,
    that decoding is returned as it is, whatever its invalid characters;
    the scan is applied only to a text that came from the first decode. *)
Theorem fallback_text_is_returned_unscanned (buffer : buffer) (encoding : string)
    (content : jsstring) :
  iconv_decode buffer encoding = None ->
  firstFallback buffer encoding content ->
  decodeBuffer buffer encoding = Returned content
  /\ forall encoding', iconv_decode buffer encoding' = Some content ->
       decodeBuffer buffer encoding' = scanDecoded buffer content.
Proof.
  intros Hthrow [pre [fb [post [Hl [Hne [Hfb Hpre]]]]]]. split.
  - unfold decodeBuffer. rewrite Hthrow, Hl.
    rewrite (tryFallbacks_first _ _ pre fb post content); auto.
  - intros encoding' Hdec. unfold decodeBuffer. rewrite Hdec. reflexivity.
Qed.

End DecodingFacts.

(** ** The patient filter of 2xlsx2.js *)

Section FilterFacts.

Import JS Xlsx2.

(** C8.  With the allow-list {"PA100"} on PATIENT_ID, a record whose
    PATIENT_ID is "PA999" is dropped and a record whose PATIENT_ID is
    "PA100" is kept; the kept record has the same fields, each textual
    value without its control characters and surrounding white space,
    every other value as it was. *)
Theorem filter_keeps_only_allowed_patient (record : gmap (list N) jsvalue) :
  allowedPatientIds = [ js "PA100" ]
  /\ (record !! js "PATIENT_ID" = Some (VString (js "PA999")) ->
        on_record record = None /\ parseCSVContent [record] = [])
  /\ (record !! js "PATIENT_ID" = Some (VString (js "PA100")) ->
        exists kept,
          on_record record = Some kept
          /\ parseCSVContent [record] = [kept]
          /\ kept !! js "PATIENT_ID" = Some (VString (js "PA100"))
          /\ (forall key, kept !! key = cleanField <$> record !! key)
          /\ (forall key s, record !! key = Some (VString s) ->
                exists cleaned, kept !! key = Some (VString cleaned)
                                /\ cleanedFrom controlChar s cleaned)).
Proof.
  split; [reflexivity|]. split.
  - intros Hid.
    assert (Hdrop : on_record record = None).
    { unfold on_record. rewrite lookup_fmap, Hid. reflexivity. }
    split; [exact Hdrop|]. unfold parseCSVContent. simpl. rewrite Hdrop. reflexivity.
  - intros Hid.
    assert (Hkeep : on_record record = Some (cleanField <$> record)).
    { unfold on_record. rewrite lookup_fmap, Hid. reflexivity. }
    exists (cleanField <$> record). split; [exact Hkeep|]. split; [|split; [|split]].
    + unfold parseCSVContent. simpl. rewrite Hkeep. reflexivity.
    + rewrite lookup_fmap, Hid. reflexivity.
    + intros key. apply lookup_fmap.
    + intros key s Hs. eexists. split.
      * rewrite lookup_fmap, Hs. reflexivity.
      * apply removeAll_trim_cleanedFrom.
Qed.

End FilterFacts.

(** ** Further properties of the scripts *)

Section FurtherFacts.

Import JS Xlsx Label.

Context {codec : Codec} {detector : Detector} {fs : FileSystem} {sink : Sink}
        {engine : Engine}.

(** The comparison [invalidChars.length > content.length * 0.1] of the
    scan, made on binary64 numbers, holds exactly when ten times the
    number of invalid characters exceeds the length, for every text of
    fewer than 2^52 code units. *)
Theorem threshold_is_one_tenth (invalid total : nat) :
  (Z.of_nat total < 2 ^ 52)%Z -> invalid <= total ->
  exceedsThreshold invalid total = true <-> total < 10 * invalid.
Proof.
  intros Hbound Hle. rewrite exceedsThreshold_exact by assumption.
  apply Nat.ltb_lt.
Qed.

(** A label that contains "gb" once lower-cased is normalised to gbk. *)
Theorem labels_with_gb_become_gbk (raw : string) :
  includes "gb" (toLowerCase raw) = true -> normalizeLabel raw = Returned "gbk"%string.
Proof.
  unfold normalizeLabel. remember (toLowerCase raw) as label eqn:El. clear El.
  intros Hgb. unfold encodingMap, ownProperty.
  repeat match goal with
         | |- context [String.eqb ?k label] =>
             destruct (String.eqb_spec k label) as [<-|_];
             [first [discriminate Hgb | reflexivity]|]
         end.
  unfold inheritedKey.
  repeat match goal with
         | |- context [String.eqb label ?k] =>
             destruct (String.eqb_spec label k) as [->|_]; [discriminate Hgb|]
         end.
  simpl. rewrite Hgb. reflexivity.
Qed.

Lemma processFile_accounts inputDir outputDir csvFiles results :
  length (failedFiles results) = failed results ->
  success (fold_left (processFile inputDir outputDir) csvFiles results)
  + failed (fold_left (processFile inputDir outputDir) csvFiles results)
  = success results + failed results + length csvFiles
  /\ total (fold_left (processFile inputDir outputDir) csvFiles results)
     = total results
  /\ length (failedFiles (fold_left (processFile inputDir outputDir) csvFiles results))
     = failed (fold_left (processFile inputDir outputDir) csvFiles results)
  /\ forall f, f ∈ failedFiles (fold_left (processFile inputDir outputDir) csvFiles results) ->
               f ∈ failedFiles results \/ f ∈ csvFiles.
Proof.
  revert results. induction csvFiles as [|csvFile csvFiles IH]; intros results Hlen.
  - simpl. repeat split; auto; lia.
  - simpl fold_left. simpl length.
    destruct (IH (processFile inputDir outputDir results csvFile))
      as [Hsum [Htotal [Hfailed Hmem]]].
    { unfold processFile. destruct (convertCsvToExcel _ _); simpl; [exact Hlen|].
      rewrite length_app. simpl. lia. }
    split; [|split; [|split]].
    + rewrite Hsum. unfold processFile. destruct (convertCsvToExcel _ _); simpl; lia.
    + rewrite Htotal. unfold processFile. destruct (convertCsvToExcel _ _); reflexivity.
    + exact Hfailed.
    + intros f Hf. destruct (Hmem f Hf) as [H|H]; [|right; right; exact H].
      unfold processFile in H. destruct (convertCsvToExcel _ _); simpl in H;
        [left; exact H|].
      apply elem_of_app in H as [H|H]; [left; exact H|].
      apply list_elem_of_singleton in H as ->. right. left.
Qed.

(** The summary of [processDirectory] accounts for every file: each CSV
    file is counted once, as a success or as a failure, and the failed
    names are names of the directory, one per failure. *)
Theorem processDirectory_accounts_for_every_file (inputDir outputDir : string)
    (csvFiles : list string) :
  success (processDirectory inputDir outputDir csvFiles)
  + failed (processDirectory inputDir outputDir csvFiles)
  = total (processDirectory inputDir outputDir csvFiles)
  /\ total (processDirectory inputDir outputDir csvFiles) = length csvFiles
  /\ length (failedFiles (processDirectory inputDir outputDir csvFiles))
     = failed (processDirectory inputDir outputDir csvFiles)
  /\ forall f, f ∈ failedFiles (processDirectory inputDir outputDir csvFiles) ->
               f ∈ csvFiles.
Proof.
  unfold processDirectory.
  destruct (processFile_accounts inputDir outputDir csvFiles
              {| success := 0; failed := 0; total := length csvFiles;
                 failedFiles := [] |} eq_refl)
    as [Hsum [Htotal [Hfailed Hmem]]].
  simpl in Hsum, Htotal. rewrite Htotal. repeat split; auto.
  intros f Hf. destruct (Hmem f Hf) as [H|H]; [inversion H | exact H].
Qed.

(** A string that [mapValues] returns holds no control character of the
    range 0x00-0x1F, no 0x7F, and no white space at either end. *)
Theorem mapValues_strings_are_clean (header value s : jsstring) :
  Normalizer.mapValues header value = VString s ->
  Forall (fun c => (0x1F < c)%N /\ c <> 0x7F%N) s /\ trim s = s.
Proof.
  intros H. apply mapValues_string in H as [_ [-> _]]. split.
  - unfold Normalizer.cleanValue. apply trim_Forall.
    eapply Forall_impl; [apply removeAll_clean|].
    intros c Hc. unfold Normalizer.controlChar, inRanges in Hc. simpl in Hc.
    rewrite !orb_false_iff, !andb_false_iff in Hc.
    destruct Hc as [[H1|H1] [[H2|H2] _]];
      repeat match goal with
             | H : (_ <=? _)%N = false |- _ => apply N.leb_gt in H
             end; lia.
  - unfold Normalizer.cleanValue. apply trim_idem.
Qed.

End FurtherFacts.

(** ** Decoding and conversion in 2xlsx.js *)

Section ConversionFacts.

Import Xlsx.

Context {codec : Codec} {detector : Detector} {fs : FileSystem} {sink : Sink}.

Lemma tryFallbacks_some buffer encoding encs content :
  tryFallbacks buffer encoding encs = Some content ->
  exists fb, fb ∈ encs /\ fb <> encoding /\ iconv_decode buffer fb = Some content.
Proof.
  induction encs as [|fb encs IH]; simpl; [discriminate|].
  destruct (String.eqb_spec fb encoding) as [->|Hne].
  - intros H. destruct (IH H) as [e [He H']]. exists e. split; [right; exact He|exact H'].
  - destruct (iconv_decode buffer fb) as [t|] eqn:Ed.
    + intros [= <-]. exists fb. split; [left|split; assumption].
    + intros H. destruct (IH H) as [e [He H']]. exists e. split; [right; exact He|exact H'].
Qed.

Lemma tryAlternatives_some buffer invalidChars encs altContent :
  0 < length invalidChars ->
  tryAlternatives buffer invalidChars encs = Some altContent ->
  exists alt, alt ∈ encs /\ iconv_decode buffer alt = Some altContent
              /\ invalidCount altContent < length invalidChars.
Proof.
  intros Hpos. induction encs as [|alt encs IH]; simpl; [discriminate|].
  destruct (iconv_decode buffer alt) as [t|] eqn:Ed.
  - destruct (matchAll invalidChar t) as [l|] eqn:Em.
    + apply matchAll_some in Em as [-> _].
      destruct (Nat.ltb_spec (length (List.filter invalidChar t)) (length invalidChars)).
      * intros [= <-]. exists alt. split; [left|split; assumption].
      * intros H'. destruct (IH H') as [e [He Hd]]. exists e. split; [right; exact He|exact Hd].
    + apply matchAll_none in Em. intros [= <-]. exists alt.
      split; [left|split; [assumption|]]. unfold invalidCount. rewrite Em. exact Hpos.
  - intros H'. destruct (IH H') as [e [He Hd]]. exists e. split; [right; exact He|exact Hd].
Qed.

(** Whatever [readAndDecodeCSV] returns is a decoding of the buffer: under
    the encoding asked for, under a fallback, or under an alternative.
    When the first decoding succeeds the function does not throw, and an
    alternative replaces the first text only with strictly fewer invalid
    characters. *)
Theorem decodeBuffer_returns_a_decoding (buffer : buffer) (encoding : string) :
  (forall text, decodeBuffer buffer encoding = Returned text ->
     exists enc, enc ∈ encoding :: fallbackEncodings ++ alternativeEncodings
                 /\ iconv_decode buffer enc = Some text)
  /\ (forall content, iconv_decode buffer encoding = Some content ->
        exists text, decodeBuffer buffer encoding = Returned text
          /\ (text = content
              \/ invalidCount text < invalidCount content
                 /\ exists alt, alt ∈ alternativeEncodings
                                /\ iconv_decode buffer alt = Some text)).
Proof.
  assert (Hscan : forall content, iconv_decode buffer encoding = Some content ->
            exists text, scanDecoded buffer content = Returned text
              /\ (text = content
                  \/ invalidCount text < invalidCount content
                     /\ exists alt, alt ∈ alternativeEncodings
                                    /\ iconv_decode buffer alt = Some text)).
  { intros content Hd. unfold scanDecoded.
    destruct (matchAll invalidChar content) as [l|] eqn:Em; [|eauto].
    apply matchAll_some in Em as [El Hpos].
    destruct (exceedsThreshold _ _); [|eauto].
    destruct (tryAlternatives buffer l alternativeEncodings) as [t|] eqn:Ea; [|eauto].
    apply tryAlternatives_some in Ea as [alt [Halt [Hdec Hlt]]]; [|exact Hpos].
    exists t. split; [reflexivity|]. right. split; [|eauto].
    unfold invalidCount at 2. rewrite <- El. exact Hlt. }
  split.
  - intros text. unfold decodeBuffer.
    destruct (iconv_decode buffer encoding) as [content|] eqn:Ed.
    + destruct (Hscan content eq_refl) as [t [-> [->|[_ [alt [Halt Hdec]]]]]];
        intros [= <-].
      * exists encoding. split; [left|exact Ed].
      * exists alt. split; [|exact Hdec]. right. apply elem_of_app. right. exact Halt.
    + destruct (tryFallbacks buffer encoding fallbackEncodings) as [t|] eqn:Ef;
        [|discriminate].
      intros [= <-]. apply tryFallbacks_some in Ef as [fb [Hfb [_ Hdec]]].
      exists fb. split; [|exact Hdec]. right. apply elem_of_app. left. exact Hfb.
  - intros content Hd. unfold decodeBuffer. rewrite Hd. apply Hscan. exact Hd.
Qed.

Lemma trim_empty s :
  trim s = [] <-> Forall (fun c => isWhiteSpace c = true) s.
Proof.
  split; [|apply trim_whitespace].
  intros H. destruct (trim_split s) as [l [r [E [Hl Hr]]]].
  rewrite H in E. simpl in E. rewrite E. apply Forall_app. split; assumption.
Qed.

(** [convertCsvToExcel] succeeds exactly when the file is read and
    decoded, the text holds something else than white space, and parsing
    and writing succeed: an empty or blank file is a failure, whatever the
    parser would do with it. *)
Theorem convertCsvToExcel_succeeds_iff (inputCsvPath outputExcelPath : string) :
  convertCsvToExcel inputCsvPath outputExcelPath = true <->
  exists buffer csvContent,
    readFileSync inputCsvPath = Some buffer
    /\ decodeBuffer buffer (detectBufferEncoding buffer) = Returned csvContent
    /\ Exists (fun c => isWhiteSpace c = false) csvContent
    /\ parseAndWrite inputCsvPath csvContent outputExcelPath = true.
Proof.
  unfold convertCsvToExcel, readAndDecodeCSV, detectFileEncoding.
  destruct (readFileSync inputCsvPath) as [buffer|]; simpl.
  2: { split; [discriminate|]. intros [b [c [H _]]]. discriminate H. }
  destruct (decodeBuffer buffer (detectBufferEncoding buffer)) as [content|e] eqn:Ed.
  2: { split; [discriminate|]. intros [b [c [[= <-] [H _]]]].
       rewrite Ed in H. discriminate H. }
  assert (Hblank : length (trim content) = 0
                   <-> ~ Exists (fun c => isWhiteSpace c = false) content).
  { rewrite length_zero_iff_nil, trim_empty. split.
    - intros Hall Hex. apply Exists_exists in Hex as [c [Hc Hw]].
      rewrite Forall_forall in Hall. rewrite (Hall c Hc) in Hw. discriminate.
    - intros Hno. apply Forall_forall. intros c Hc.
      destruct (isWhiteSpace c) eqn:Ew; [reflexivity|].
      exfalso. apply Hno. apply Exists_exists. exists c. split; assumption. }
  assert (Hsame : forall b t, Some buffer = Some b ->
            decodeBuffer b (detectBufferEncoding b) = Returned t -> t = content).
  { intros b t [= <-] H. rewrite Ed in H. injection H as <-. reflexivity. }
  destruct content as [|c content].
  - split; [discriminate|]. intros [b [t [Hb [Hd [Hex _]]]]].
    rewrite (Hsame b t Hb Hd) in Hex. inversion Hex.
  - destruct (Nat.eqb_spec (length (trim (c :: content))) 0) as [Hz|Hnz].
    + split; [discriminate|]. intros [b [t [Hb [Hd [Hex _]]]]].
      rewrite (Hsame b t Hb Hd) in Hex. apply Hblank in Hz. contradiction.
    + split.
      * intros Hw. exists buffer, (c :: content). repeat split; try assumption.
        destruct (decide (Forall (fun c => isWhiteSpace c = true) (c :: content)))
          as [Hall|Hnot].
        -- apply trim_empty in Hall. rewrite Hall in Hnz. contradiction.
        -- apply not_Forall_Exists in Hnot; [|intros x; apply _].
           eapply Exists_impl; [exact Hnot|]. simpl. intros x Hx.
           destruct (isWhiteSpace x); [contradiction|reflexivity].
      * intros [b [t [Hb [Hd [_ Hw]]]]].
        rewrite (Hsame b t Hb Hd) in Hw. exact Hw.
Qed.

End ConversionFacts.

(** ** Detection and decoding together *)

Section RoundTripFacts.

Import Xlsx.

Context {codec : Codec} {detector : Detector}.

(** An encoding chosen by the round-trip test decodes the file: when the
    detector is unsure and the buffer has no byte-order mark, the encoding
    [detectFileEncoding] answers from the trial list is one under which
    the buffer decodes to a text that encodes back to the same bytes, so
    [readAndDecodeCSV] needs no fallback and goes on to scan that text. *)
Theorem round_trip_choice_is_decodable (buffer : buffer) (result : option detection)
    (enc : string) :
  jschardet_detect buffer = Returned result ->
  unsure result ->
  sniffBOM buffer = None ->
  firstRoundTrip buffer testEncodings = Some enc ->
  detectBufferEncoding buffer = enc
  /\ enc ∈ testEncodings
  /\ exists content,
       iconv_decode buffer enc = Some content
       /\ iconv_encode content enc = Some buffer
       /\ decodeBuffer buffer enc = scanDecoded buffer content.
Proof.
  intros Hd Hu Hbom Ht. split; [|split].
  - unfold detectBufferEncoding. rewrite Hd.
    apply lowConfidence_unsure in Hu. rewrite Hu, Hbom, Ht. reflexivity.
  - apply firstRoundTrip_some in Ht as [pre [post [-> _]]].
    apply elem_of_app. right. left.
  - apply firstRoundTrip_some in Ht as [pre [post [_ [[content [Hdec Henc]] _]]]].
    exists content. split; [exact Hdec|]. split; [exact Henc|].
    unfold decodeBuffer. rewrite Hdec. reflexivity.
Qed.

End RoundTripFacts.

(** ** Numbers in [mapValues] *)

Section NumberFacts.

Import Normalizer.

Context {engine : Engine}.

Lemma Digit_decimalDigit c : inRanges [(0x30, 0x39)]%N c = true <-> decimalDigit c.
Proof.
  unfold inRanges, decimalDigit. simpl. rewrite orb_false_r, andb_true_iff.
  rewrite !N.leb_le. reflexivity.
Qed.

Lemma lang_star_class cls s :
  lang (Star (Class cls)) s <-> Forall (fun c => cls c = true) s.
Proof.
  split.
  - induction s as [|c s IH]; intros H; [constructor|].
    apply lang_star_cons in H as [s1 [s2 [-> [H1 H2]]]].
    apply lang_class_inv in H1 as [c0 [E Hc]]. injection E as <- ->.
    constructor; [exact Hc|]. apply IH. exact H2.
  - induction 1 as [|c s Hc _ IH]; [apply lang_star_nil|].
    change (c :: s) with ([c] ++ s). apply lang_star_more; [|exact IH].
    apply lang_class. exact Hc.
Qed.

Lemma lang_opt_chr c s : lang (Opt (Chr c)) s <-> s = [] \/ s = [c].
Proof.
  unfold Opt, Chr. split.
  - intros H. apply lang_alt_inv in H as [H|H].
    + left. apply lang_empty_inv. exact H.
    + right. apply lang_class_inv in H as [c0 [-> Hc]].
      apply N.eqb_eq in Hc. subst. reflexivity.
  - intros [->| ->]; [apply lang_alt_l, lang_empty|].
    apply lang_alt_r, lang_class, N.eqb_refl.
Qed.

Lemma numberPattern_shape s : test numberPattern s = true <-> decimalShape s.
Proof.
  rewrite test_lang. unfold numberPattern, Cat, decimalShape. simpl. split.
  - intros H.
    apply lang_seq_inv in H as [sign [s1 [-> [Hsign H]]]].
    apply lang_seq_inv in H as [ints [s2 [-> [Hints H]]]].
    apply lang_seq_inv in H as [point [s3 [-> [Hpoint H]]]].
    apply lang_seq_inv in H as [frac [s4 [-> [Hfrac H]]]].
    apply lang_empty_inv in H as ->. rewrite app_nil_r.
    exists sign, ints, point, frac. split; [reflexivity|].
    apply lang_opt_chr in Hsign, Hpoint.
    apply lang_star_class in Hints.
    unfold Plus in Hfrac. apply lang_seq_inv in Hfrac as [d [ds [-> [Hd Hds]]]].
    apply lang_class_inv in Hd as [c [-> Hc]]. apply lang_star_class in Hds.
    repeat split; try assumption.
    + eapply Forall_impl; [exact Hints|]. intros x. apply Digit_decimalDigit.
    + constructor; [apply Digit_decimalDigit; exact Hc|].
      eapply Forall_impl; [exact Hds|]. intros x. apply Digit_decimalDigit.
    + discriminate.
  - intros [sign [ints [point [frac [-> [Hsign [Hints [Hpoint [Hfrac Hne]]]]]]]]].
    apply lang_seq; [apply lang_opt_chr; exact Hsign|].
    apply lang_seq.
    { apply lang_star_class. eapply Forall_impl; [exact Hints|].
      intros x. apply Digit_decimalDigit. }
    apply lang_seq; [apply lang_opt_chr; exact Hpoint|].
    rewrite <- (app_nil_r frac). apply lang_seq; [|apply lang_empty].
    destruct frac as [|d ds]; [contradiction|].
    apply Forall_cons in Hfrac as [Hd Hds].
    change (d :: ds) with ([d] ++ ds). apply lang_seq.
    + apply lang_class. apply Digit_decimalDigit. exact Hd.
    + apply lang_star_class. eapply Forall_impl; [exact Hds|].
      intros x. apply Digit_decimalDigit.
Qed.

Lemma dateOrString_not_number value num : dateOrString value <> VNumber num.
Proof.
  unfold dateOrString. destruct (existsb _ _); [|discriminate].
  destruct (Date_parse value); discriminate.
Qed.

(** [mapValues] answers a number exactly for a non-empty field whose
    cleaned text is an optional minus sign, digits, an optional point and
    at least one digit, and that the engine does not read as NaN; the
    number is what [Number] makes of the cleaned text. *)
Theorem mapValues_number_iff (header value : jsstring) (num : spec_float) :
  mapValues header value = VNumber num <->
  value <> [] /\ decimalShape (cleanValue value)
  /\ num = Number (cleanValue value) /\ isNaN num = false.
Proof.
  unfold mapValues. destruct value as [|c rest].
  - split; [discriminate|]. intros [H _]. contradiction.
  - remember (cleanValue (c :: rest)) as v eqn:Ev. clear Ev.
    rewrite <- numberPattern_shape.
    destruct (test numberPattern v).
    + destruct (isNaN (Number v)) eqn:En; simpl.
      * split; [intros H; apply dateOrString_not_number in H; contradiction|].
        intros [_ [_ [-> H]]]. rewrite En in H. discriminate.
      * split.
        -- intros [= <-]. repeat split; [discriminate|exact En].
        -- intros [_ [_ [-> _]]]. reflexivity.
    + split; [intros H; apply dateOrString_not_number in H; contradiction|].
      intros [_ [H _]]. discriminate.
Qed.

End NumberFacts.

(** ** Dates in [mapValues] *)

Section DateFacts.

Import Normalizer.

Context {engine : Engine}.

Lemma lang_Digit s : lang Digit s -> exists d, s = [d] /\ decimalDigit d.
Proof.
  intros H. apply lang_class_inv in H as [d [-> Hd]]. exists d.
  split; [reflexivity|]. apply Digit_decimalDigit. exact Hd.
Qed.

Lemma lang_digits_first r s :
  lang (Seq Digit r) s -> exists d rest, s = d :: rest /\ decimalDigit d.
Proof.
  intros H. apply lang_seq_inv in H as [s1 [s2 [-> [H1 _]]]].
  apply lang_Digit in H1 as [d [-> Hd]]. exists d, s2. split; [reflexivity|exact Hd].
Qed.

Lemma lang_separated a b r s :
  (forall t, lang a t -> exists d rest, t = d :: rest /\ decimalDigit d) ->
  (forall t, lang b t -> exists c, t = [c] /\ ~ decimalDigit c /\ c <> 0x2E%N) ->
  lang (Seq a (Seq b r)) s ->
  exists d rest, s = d :: rest /\ decimalDigit d
    /\ Exists (fun c => ~ decimalDigit c /\ c <> 0x2E%N) s.
Proof.
  intros Ha Hb H. apply lang_seq_inv in H as [s1 [s' [-> [H1 H]]]].
  apply lang_seq_inv in H as [s2 [s3 [-> [H2 _]]]].
  destruct (Ha s1 H1) as [d [rest [-> Hd]]]. destruct (Hb s2 H2) as [c [-> Hc]].
  exists d, (rest ++ [c] ++ s3). split; [reflexivity|]. split; [exact Hd|].
  apply Exists_app. right. apply Exists_app. left. constructor. exact Hc.
Qed.

Lemma lang_dateSeparator t :
  lang dateSeparator t -> exists c, t = [c] /\ ~ decimalDigit c /\ c <> 0x2E%N.
Proof.
  intros H. apply lang_class_inv in H as [c [-> Hc]]. exists c.
  split; [reflexivity|]. apply orb_true_iff in Hc as [Hc|Hc];
    apply N.eqb_eq in Hc; subst; unfold decimalDigit; split; lia.
Qed.

Lemma lang_year_mark t :
  lang (Chr 0x5E74) t -> exists c, t = [c] /\ ~ decimalDigit c /\ c <> 0x2E%N.
Proof.
  intros H. apply lang_class_inv in H as [c [-> Hc]]. exists c.
  split; [reflexivity|]. apply N.eqb_eq in Hc. subst. unfold decimalDigit. split; lia.
Qed.

Lemma date_chars format s :
  In format dateFormats -> lang format s ->
  exists d rest, s = d :: rest /\ decimalDigit d
    /\ Exists (fun c => ~ decimalDigit c /\ c <> 0x2E%N) s.
Proof.
  intros Hin. simpl in Hin. destruct Hin as [<-|[<-|[<-|[]]]]; unfold Cat; simpl.
  - apply lang_separated; [intros t; apply lang_digits_first|apply lang_dateSeparator].
  - apply lang_separated; [intros t; apply lang_digits_first|apply lang_dateSeparator].
  - apply lang_separated; [intros t; apply lang_digits_first|apply lang_year_mark].
Qed.

Lemma number_chars s d rest :
  decimalShape s -> s = d :: rest -> decimalDigit d ->
  Forall (fun c => decimalDigit c \/ c = 0x2E%N) s.
Proof.
  intros [sign [ints [point [frac [-> [Hsign [Hints [Hpoint [Hfrac _]]]]]]]]] E Hd.
  destruct Hsign as [->| ->].
  - simpl. apply Forall_app. split; [|apply Forall_app; split].
    + eapply Forall_impl; [exact Hints|]. auto.
    + destruct Hpoint as [->| ->];
        [constructor|constructor; [right; reflexivity|constructor]].
    + eapply Forall_impl; [exact Hfrac|]. auto.
  - simpl in E. injection E as <- _. unfold decimalDigit in Hd. lia.
Qed.

Lemma number_is_no_date s :
  test numberPattern s = true ->
  existsb (fun format => test format s) dateFormats = false.
Proof.
  intros Hn. apply numberPattern_shape in Hn.
  destruct (existsb _ _) eqn:Ed; [|reflexivity]. exfalso.
  apply existsb_exists in Ed as [format [Hin Ht]]. apply test_lang in Ht.
  destruct (date_chars format s Hin Ht) as [d [rest [E [Hd Hex]]]].
  pose proof (number_chars s d rest Hn E Hd) as Hall.
  apply Exists_exists in Hex as [c [Hc [H1 H2]]].
  rewrite Forall_forall in Hall. destruct (Hall c Hc); contradiction.
Qed.

(** No text is both a number and a date for [mapValues]: the number rule,
    tried first, never takes a date away.  So a non-empty field becomes a
    Date exactly when its cleaned text matches one of the three date
    patterns and the engine reads it as a valid date. *)
Theorem mapValues_date_iff (header value : jsstring) (time : Z) :
  (forall s, test numberPattern s = true ->
             existsb (fun format => test format s) dateFormats = false)
  /\ (mapValues header value = VDate time <->
      value <> []
      /\ existsb (fun format => test format (cleanValue value)) dateFormats = true
      /\ Date_parse (cleanValue value) = Some time).
Proof.
  split; [apply number_is_no_date|].
  unfold mapValues. destruct value as [|c rest].
  - split; [discriminate|]. intros [H _]. contradiction.
  - remember (cleanValue (c :: rest)) as v eqn:Ev. clear Ev.
    assert (Hdate : dateOrString v = VDate time <->
              existsb (fun format => test format v) dateFormats = true
              /\ Date_parse v = Some time).
    { unfold dateOrString. destruct (existsb _ _).
      - destruct (Date_parse v) as [t|].
        + split; [intros [= <-]; split; reflexivity|intros [_ [= <-]]; reflexivity].
        + split; [discriminate|intros [_ H]; discriminate H].
      - split; [discriminate|intros [H _]; discriminate H]. }
    destruct (test numberPattern v) eqn:En.
    + pose proof (number_is_no_date v En) as Hno.
      destruct (negb (isNaN (Number v))).
      * split; [discriminate|]. intros [_ [H _]]. rewrite Hno in H. discriminate H.
      * rewrite Hdate. split; [intros [H _]; rewrite Hno in H; discriminate H|].
        intros [_ H]. exact H.
    + rewrite Hdate. split; [intros H; split; [discriminate|exact H]|].
      intros [_ H]. exact H.
Qed.

End DateFacts.

(** ** Detection, decoding and conversion in 2xlsx2.js *)

Section FilteredFacts.

Import Xlsx2.

Context {codec : Codec} {detector : Detector} {fs : FileSystem}
        {parser : Parser} {writer : Writer}.

Lemma lowerAscii_idem a : Label.lowerAscii (Label.lowerAscii a) = Label.lowerAscii a.
Proof. destruct a as [[] [] [] [] [] [] [] []]; reflexivity. Qed.

Lemma toLowerCase_idem s : Label.toLowerCase (Label.toLowerCase s) = Label.toLowerCase s.
Proof.
  induction s as [|a s IH]; [reflexivity|]. simpl. rewrite lowerAscii_idem, IH. reflexivity.
Qed.

Lemma labelEncoding_answer raw :
  Label.toLowerCase (labelEncoding raw) = labelEncoding raw
  /\ (Label.includes "gb" (labelEncoding raw) = true -> labelEncoding raw = "gbk"%string)
  /\ labelEncoding raw <> "ascii"%string /\ labelEncoding raw <> "utf-8"%string.
Proof.
  unfold labelEncoding. remember (Label.toLowerCase raw) as e eqn:Ee.
  assert (Hlow : Label.toLowerCase e = e) by (subst; apply toLowerCase_idem).
  clear Ee.
  destruct (String.eqb_spec e "ascii") as [->|Hascii]; simpl;
    [repeat split; try reflexivity; discriminate|].
  destruct (String.eqb_spec e "utf-8") as [->|Hutf]; simpl;
    [repeat split; try reflexivity; discriminate|].
  destruct (Label.includes "gb" e) eqn:Egb; simpl;
    [repeat split; try reflexivity; discriminate|].
  destruct (String.eqb_spec e "gbk") as [->|Hgbk]; [discriminate Egb|].
  destruct (String.eqb_spec e "big5") as [->|Hbig5];
    [repeat split; try reflexivity; discriminate|].
  repeat split; try assumption. rewrite Egb. discriminate.
Qed.

(** The encoding [detectFileEncoding] of 2xlsx2.js answers is in lower
    case, is gbk whenever it mentions gb, and is never ascii or utf-8
    (both are answered as utf8); it is gbk whenever the file cannot be
    read or the detector throws, finds nothing, is less than 0.8 sure or
    gives no label. *)
Theorem detectFileEncoding_answer (filePath : string) :
  (Label.toLowerCase (detectFileEncoding filePath) = detectFileEncoding filePath
   /\ (Label.includes "gb" (detectFileEncoding filePath) = true ->
       detectFileEncoding filePath = "gbk"%string)
   /\ detectFileEncoding filePath <> "ascii"%string
   /\ detectFileEncoding filePath <> "utf-8"%string)
  /\ ((forall buffer d,
         readFileSync filePath = Some buffer ->
         jschardet_detect buffer = Returned (Some d) ->
         SFltb (confidence d) confidenceThreshold = true \/ encoding d = None) ->
      detectFileEncoding filePath = "gbk"%string).
Proof.
  assert (Hgbk : Label.toLowerCase "gbk" = "gbk"%string
                 /\ (Label.includes "gb" "gbk" = true -> "gbk"%string = "gbk"%string)
                 /\ "gbk"%string <> "ascii"%string /\ "gbk"%string <> "utf-8"%string)
    by (repeat split; discriminate).
  unfold detectFileEncoding, detectBufferEncoding.
  destruct (readFileSync filePath) as [buffer|]; [|split; [exact Hgbk|reflexivity]].
  destruct (jschardet_detect buffer) as [[d|]|e] eqn:Ej; simpl;
    [|split; [exact Hgbk|reflexivity]..].
  destruct (SFltb (confidence d) confidenceThreshold) eqn:Ec;
    [split; [exact Hgbk|reflexivity]|].
  destruct (encoding d) as [raw|] eqn:El; [|split; [exact Hgbk|reflexivity]].
  split; [apply labelEncoding_answer|].
  intros H. destruct (H buffer d eq_refl Ej) as [H'|H'].
  - rewrite Ec in H'. discriminate H'.
  - rewrite El in H'. discriminate H'.
Qed.

Lemma removeAll_removeAll (cls cls' : N -> bool) s :
  (forall c, cls' c = true -> cls c = true) ->
  removeAll cls (removeAll cls' s) = removeAll cls s.
Proof.
  intros Hsub. induction s as [|c s IH]; [reflexivity|]. simpl.
  destruct (cls' c) eqn:E'.
  - rewrite (Hsub c E'). exact IH.
  - simpl. rewrite IH. reflexivity.
Qed.

Lemma removeAll_idem cls s : removeAll cls (removeAll cls s) = removeAll cls s.
Proof. apply removeAll_removeAll. auto. Qed.

Lemma removeAll_cons cls c s :
  removeAll cls (c :: s) = if cls c then removeAll cls s else c :: removeAll cls s.
Proof. reflexivity. Qed.

Lemma replaceCRLF_cons c c' s :
  replaceCRLF (c :: c' :: s) =
  if ((c =? 0x0D) && (c' =? 0x0A))%N then 0x0A%N :: replaceCRLF s
  else c :: replaceCRLF (c' :: s).
Proof. reflexivity. Qed.

Lemma removeAll_replaceCRLF s :
  removeAll controlChar (replaceCRLF s) = removeAll controlChar s.
Proof.
  enough (H : removeAll controlChar (replaceCRLF s) = removeAll controlChar s
              /\ forall c, removeAll controlChar (replaceCRLF (c :: s))
                           = removeAll controlChar (c :: s)) by apply H.
  induction s as [|c' s [IH IH']].
  - split; [reflexivity|]. intros c. reflexivity.
  - split; [apply IH'|]. intros c. rewrite replaceCRLF_cons.
    destruct (N.eqb_spec c 0x0D) as [->|Hc];
      [destruct (N.eqb_spec c' 0x0A) as [->|Hc']|]; cbn [andb].
    + rewrite !removeAll_cons, IH. reflexivity.
    + rewrite (removeAll_cons _ 13%N (c' :: s)), removeAll_cons, IH'. reflexivity.
    + rewrite (removeAll_cons _ c (c' :: s)), removeAll_cons, IH'. reflexivity.
Qed.

Lemma preprocess_removeAll content :
  preprocess content = removeAll controlChar content.
Proof.
  unfold preprocess. rewrite removeAll_removeAll, removeAll_replaceCRLF; [reflexivity|].
  intros c Hc. apply N.eqb_eq in Hc. subst. reflexivity.
Qed.

(** The three replacements of [readAndDecodeCSV] in 2xlsx2.js amount to
    the last one alone: the text loses every code unit of 0x00-0x09,
    0x0B-0x1F and 0x7F, carriage returns included, and nothing else; a
    second pass changes nothing. *)
Theorem preprocess_is_one_replacement (content : jsstring) :
  preprocess content = removeAll controlChar content
  /\ preprocess content = List.filter (fun c => negb (controlChar c)) content
  /\ preprocess (preprocess content) = preprocess content.
Proof.
  split; [apply preprocess_removeAll|]. split.
  - rewrite preprocess_removeAll. apply removeAll_filter.
  - rewrite !preprocess_removeAll. apply removeAll_idem.
Qed.

Lemma on_record_valid record kept :
  on_record record = Some kept -> validRecord kept = true.
Proof.
  unfold on_record.
  destruct ((cleanField <$> record) !! js "PATIENT_ID") as [id|] eqn:Eid; [|discriminate].
  destruct (truthy id && includes allowedPatientIds id) eqn:Ek; [|discriminate].
  intros [= <-]. apply andb_true_iff in Ek as [Ht Hi].
  unfold validRecord. apply existsb_exists. exists id. split.
  - apply list_elem_of_In. apply list_elem_of_fmap.
    exists (js "PATIENT_ID", id). split; [reflexivity|].
    apply elem_of_map_to_list. exact Eid.
  - destruct id as [| | |s]; try discriminate Hi.
    destruct s; [discriminate Ht|reflexivity].
Qed.

Lemma parseCSVContent_valid parsed :
  List.filter validRecord (parseCSVContent parsed) = parseCSVContent parsed.
Proof.
  unfold parseCSVContent. induction parsed as [|record parsed IH]; [reflexivity|].
  cbn [omap list_omap]. destruct (on_record record) as [kept|] eqn:Ek; [|exact IH].
  cbn [List.filter]. rewrite (on_record_valid _ _ Ek). f_equal. exact IH.
Qed.

(** In 2xlsx2.js the filter on empty records never removes anything: a
    record the patient filter keeps has a non-empty PATIENT_ID.  So
    [convertCsvToExcel] succeeds exactly when the file is read and
    decoded, the parser accepts the cleaned text, at least one record
    passes the patient filter, and the workbook is written from exactly
    the records that pass it. *)
Theorem convertCsvToExcel_writes_kept_records (inputCsvPath outputExcelPath : string) :
  (forall parsed, List.filter validRecord (parseCSVContent parsed) = parseCSVContent parsed)
  /\ (convertCsvToExcel inputCsvPath outputExcelPath = true <->
      exists buffer content parsed,
        readFileSync inputCsvPath = Some buffer
        /\ iconv_decode buffer (detectBufferEncoding buffer) = Some content
        /\ csv_parse (removeAll controlChar content) = Some parsed
        /\ parseCSVContent parsed <> []
        /\ writeWorkbook inputCsvPath (parseCSVContent parsed) outputExcelPath = true).
Proof.
  split; [apply parseCSVContent_valid|].
  unfold convertCsvToExcel, readAndDecodeCSV, detectFileEncoding.
  destruct (readFileSync inputCsvPath) as [buffer|]; simpl.
  2: { split; [discriminate|]. intros [b [c [p [H _]]]]. discriminate H. }
  destruct (iconv_decode buffer (detectBufferEncoding buffer)) as [content|] eqn:Ed; simpl.
  2: { split; [discriminate|]. intros [b [c [p [[= <-] [H _]]]]].
       rewrite Ed in H. discriminate H. }
  rewrite preprocess_removeAll.
  destruct (csv_parse (removeAll controlChar content)) as [parsed|] eqn:Ep.
  2: { split; [discriminate|]. intros [b [c [p [[= <-] [H [H' _]]]]]].
       rewrite Ed in H. injection H as <-. rewrite Ep in H'. discriminate H'. }
  rewrite parseCSVContent_valid.
  assert (Hsame : forall b c p, Some buffer = Some b ->
            iconv_decode b (detectBufferEncoding b) = Some c ->
            csv_parse (removeAll controlChar c) = Some p -> p = parsed).
  { intros b c p [= <-] H H'. rewrite Ed in H. injection H as <-.
    rewrite Ep in H'. injection H' as <-. reflexivity. }
  destruct (parseCSVContent parsed) as [|r rs] eqn:Ek.
  - split; [discriminate|]. intros [b [c [p [Hb [Hc [Hp [Hne _]]]]]]].
    rewrite (Hsame b c p Hb Hc Hp), Ek in Hne. contradiction.
  - split.
    + intros Hw. exists buffer, content, parsed. rewrite Ek.
      repeat split; try assumption. discriminate.
    + intros [b [c [p [Hb [Hc [Hp [_ Hw]]]]]]].
      rewrite (Hsame b c p Hb Hc Hp), Ek in Hw. exact Hw.
Qed.

End FilteredFacts.

(** ** Column widths *)

Section SheetFacts.

Import Sheet.

Context {formatter : Formatter}.

Lemma own_update_eq cw key w : own (update cw key w) key = Some w.
Proof.
  induction cw as [|[k v] cw IH]; simpl.
  - rewrite bool_decide_eq_true_2; reflexivity.
  - destruct (decide (k = key)) as [->|Hne].
    + rewrite bool_decide_eq_true_2 by reflexivity. simpl.
      rewrite bool_decide_eq_true_2; reflexivity.
    + rewrite bool_decide_eq_false_2 by exact Hne. simpl.
      rewrite bool_decide_eq_false_2 by exact Hne. exact IH.
Qed.

Lemma own_update_ne cw key w key' :
  key' <> key -> own (update cw key w) key' = own cw key'.
Proof.
  intros Hne. induction cw as [|[k v] cw IH]; simpl.
  - rewrite bool_decide_eq_false_2; [reflexivity|]. intros E. apply Hne. symmetry. exact E.
  - destruct (decide (k = key)) as [->|Hk].
    + rewrite bool_decide_eq_true_2 by reflexivity. simpl.
      rewrite !bool_decide_eq_false_2 by (intros E; apply Hne; symmetry; exact E).
      reflexivity.
    + rewrite bool_decide_eq_false_2 by exact Hk. simpl.
      destruct (bool_decide (k = key')); [reflexivity|exact IH].
Qed.

Lemma own_assign_eq cw key w :
  key <> js "__proto__" -> own (assign cw key w) key = Some w.
Proof.
  intros Hne. unfold assign. rewrite bool_decide_eq_false_2 by exact Hne.
  apply own_update_eq.
Qed.

Lemma own_assign_ne cw key w key' :
  key' <> key -> own (assign cw key w) key' = own cw key'.
Proof.
  intros Hne. unfold assign. destruct (bool_decide (key = js "__proto__")); [reflexivity|].
  apply own_update_ne. exact Hne.
Qed.

Lemma update_keys cw key w :
  (update cw key w).*1 = if bool_decide (key ∈ cw.*1) then cw.*1 else cw.*1 ++ [key].
Proof.
  induction cw as [|[k v] cw IH]; cbn [update fmap list_fmap fst].
  - rewrite bool_decide_eq_false_2; [reflexivity|]. intros H. inversion H.
  - destruct (decide (k = key)) as [->|Hne].
    + rewrite bool_decide_eq_true_2 by reflexivity. cbn [fmap list_fmap fst].
      rewrite bool_decide_eq_true_2; [reflexivity|left].
    + rewrite bool_decide_eq_false_2 by exact Hne. cbn [fmap list_fmap fst]. rewrite IH.
      destruct (decide (key ∈ cw.*1)) as [Hin|Hnin].
      * rewrite !bool_decide_eq_true_2; [reflexivity|right; exact Hin|exact Hin].
      * rewrite !bool_decide_eq_false_2; [reflexivity| |exact Hnin].
        intros H. apply elem_of_cons in H as [E|H]; [|contradiction].
        apply Hne. symmetry. exact E.
Qed.

(** The width of a column that has one: later entries can only widen it. *)
Lemma own_entries_some key entries cw n :
  key <> js "__proto__" ->
  own cw key = Some (Width n) ->
  own (fold_left entryWidths entries cw) key =
  Some (Width (Nat.max n (list_max (cellWidth <$>
     (snd <$> List.filter (fun entry => bool_decide (entry.1 = key)) entries))))).
Proof.
  intros Hproto. revert cw n. induction entries as [|[k v] entries IH]; intros cw n Hown.
  - simpl. rewrite Nat.max_0_r. exact Hown.
  - cbn [fold_left List.filter fst]. destruct (decide (k = key)) as [->|Hne].
    + rewrite bool_decide_eq_true_2 by reflexivity.
      rewrite (IH _ (Nat.max n (cellWidth v))).
      * cbn [fmap list_fmap snd list_max fold_right]. rewrite Nat.max_assoc. reflexivity.
      * unfold entryWidths. cbn [fst snd]. rewrite own_assign_eq by exact Hproto.
        unfold current. rewrite Hown. reflexivity.
    + rewrite bool_decide_eq_false_2 by exact Hne. apply IH.
      unfold entryWidths. cbn [fst snd]. rewrite own_assign_ne; [exact Hown|].
      intros E. apply Hne. symmetry. exact E.
Qed.

(** A column the header loop did not create appears with the first row
    that has its key. *)
Lemma own_entries_none key entries cw :
  key <> js "__proto__" ->
  key ∉ prototypeKeys ->
  own cw key = None ->
  own (fold_left entryWidths entries cw) key =
  if bool_decide (key ∈ entries.*1) then
    Some (Width (list_max (cellWidth <$>
       (snd <$> List.filter (fun entry => bool_decide (entry.1 = key)) entries))))
  else None.
Proof.
  intros Hproto Hinherited. revert cw.
  induction entries as [|[k v] entries IH]; intros cw Hown.
  - cbn [fold_left fmap list_fmap]. rewrite bool_decide_eq_false_2; [exact Hown|].
    intros H. inversion H.
  - cbn [fold_left List.filter fst]. destruct (decide (k = key)) as [->|Hne].
    + rewrite (bool_decide_eq_true_2 (key = key)) by reflexivity.
      rewrite bool_decide_eq_true_2 by (cbn [fmap list_fmap fst]; left).
      rewrite (own_entries_some key entries _ (cellWidth v) Hproto).
      * reflexivity.
      * unfold entryWidths. cbn [fst snd]. rewrite own_assign_eq by exact Hproto.
        unfold current. rewrite Hown.
        rewrite bool_decide_eq_false_2 by exact Hinherited. reflexivity.
    + rewrite (bool_decide_eq_false_2 (k = key)) by exact Hne. rewrite IH.
      * cbn [fmap list_fmap fst]. destruct (decide (key ∈ entries.*1)) as [Hin|Hnin].
        -- rewrite !bool_decide_eq_true_2; [reflexivity|right; exact Hin|exact Hin].
        -- rewrite !bool_decide_eq_false_2; [reflexivity| |exact Hnin].
           intros H. apply elem_of_cons in H as [E|H]; [|contradiction].
           apply Hne. symmetry. exact E.
      * unfold entryWidths. cbn [fst snd]. rewrite own_assign_ne; [exact Hown|].
        intros E. apply Hne. symmetry. exact E.
Qed.

Lemma own_header keys cw key :
  own (fold_left (fun columnWidths key => assign columnWidths key (Width (length key)))
                 keys cw) key =
  if bool_decide (key ∈ keys /\ key <> js "__proto__") then Some (Width (length key))
  else own cw key.
Proof.
  revert cw. induction keys as [|k keys IH]; intros cw.
  - cbn [fold_left]. rewrite bool_decide_eq_false_2; [reflexivity|].
    intros [H _]. inversion H.
  - cbn [fold_left]. rewrite IH. destruct (decide (key ∈ keys /\ key <> js "__proto__"))
      as [[Hin Hp]|Hn].
    + rewrite !bool_decide_eq_true_2; [reflexivity|split; [right|]; assumption|split; assumption].
    + rewrite (bool_decide_eq_false_2 _ Hn). destruct (decide (k = key)) as [->|Hne].
      * destruct (decide (key = js "__proto__")) as [Hp|Hp].
        -- rewrite bool_decide_eq_false_2 by (intros [_ H]; contradiction).
           unfold assign. rewrite bool_decide_eq_true_2 by exact Hp. reflexivity.
        -- rewrite bool_decide_eq_true_2 by (split; [left|exact Hp]).
           apply own_assign_eq. exact Hp.
      * rewrite bool_decide_eq_false_2.
        -- apply own_assign_ne. intros E. apply Hne. symmetry. exact E.
        -- intros [H Hp]. apply elem_of_cons in H as [E|H].
           ++ apply Hne. symmetry. exact E.
           ++ apply Hn. split; assumption.
Qed.

Lemma fold_rows (rows : list row) cw :
  fold_left (fun columnWidths row => fold_left entryWidths row columnWidths) rows cw
  = fold_left entryWidths (concat rows) cw.
Proof.
  revert cw. induction rows as [|r rows IH]; intros cw; [reflexivity|].
  simpl. rewrite fold_left_app. apply IH.
Qed.

Lemma columnWidths_entries first rest :
  columnWidths (first :: rest) =
  fold_left entryWidths (concat (take 100 (first :: rest)))
    (fold_left (fun columnWidths key => assign columnWidths key (Width (length key)))
               first.*1 []).
Proof.
  unfold columnWidths, headerWidths. rewrite fold_rows.
  replace (take (Nat.min 100 (length (first :: rest))) (first :: rest))
    with (take 100 (first :: rest)); [reflexivity|].
  destruct (Nat.le_ge_cases 100 (length (first :: rest))) as [H|H].
  - rewrite Nat.min_l by exact H. reflexivity.
  - rewrite Nat.min_r by exact H. rewrite !take_ge; [reflexivity|lia|exact H].
Qed.

Lemma own_header_column first rest key :
  key <> js "__proto__" -> key ∈ first.*1 ->
  own (columnWidths (first :: rest)) key =
  Some (Width (Nat.max (length key) (widest key (take 100 (first :: rest))))).
Proof.
  intros Hproto Hin. rewrite columnWidths_entries.
  apply own_entries_some; [exact Hproto|].
  rewrite own_header. rewrite bool_decide_eq_true_2; [reflexivity|split; assumption].
Qed.

(** The width kept for a column of the first row is the length of its
    header or the widest of its cells, capped at 50, in the first hundred
    rows, whichever is larger.  A column that only later rows have gets
    the widest of its cells. *)
Theorem column_width_is_widest_cell (first : row) (rest : list row) (key : jsstring) :
  key <> js "__proto__" ->
  (key ∈ first.*1 ->
   own (columnWidths (first :: rest)) key =
   Some (Width (Nat.max (length key) (widest key (take 100 (first :: rest))))))
  /\ (key ∉ first.*1 -> key ∉ prototypeKeys ->
      own (columnWidths (first :: rest)) key =
      if bool_decide (key ∈ (concat (take 100 (first :: rest))).*1) then
        Some (Width (widest key (take 100 (first :: rest))))
      else None).
Proof.
  intros Hproto. split; [apply own_header_column; exact Hproto|].
  rewrite columnWidths_entries.
  intros Hnin Hinherited. apply own_entries_none; try assumption.
  rewrite own_header. rewrite bool_decide_eq_false_2; [reflexivity|].
  intros [H _]. contradiction.
Qed.

Lemma assign_keys_fresh cw key w :
  key <> js "__proto__" -> key ∉ cw.*1 -> (assign cw key w).*1 = cw.*1 ++ [key].
Proof.
  intros Hp Hnin. unfold assign. rewrite bool_decide_eq_false_2 by exact Hp.
  rewrite update_keys. rewrite bool_decide_eq_false_2 by exact Hnin. reflexivity.
Qed.

Lemma assign_keys_known cw key w : key ∈ cw.*1 -> (assign cw key w).*1 = cw.*1.
Proof.
  intros Hin. unfold assign. destruct (bool_decide (key = js "__proto__")); [reflexivity|].
  rewrite update_keys. rewrite bool_decide_eq_true_2 by exact Hin. reflexivity.
Qed.

Lemma header_keys keys cw :
  NoDup (cw.*1 ++ keys) ->
  Forall (fun key => key <> js "__proto__") keys ->
  (fold_left (fun columnWidths key => assign columnWidths key (Width (length key)))
             keys cw).*1 = cw.*1 ++ keys.
Proof.
  revert cw. induction keys as [|k keys IH]; intros cw Hnd Hp.
  - simpl. rewrite app_nil_r. reflexivity.
  - cbn [fold_left]. apply Forall_cons in Hp as [Hk Hp].
    assert (Hfresh : k ∉ cw.*1).
    { apply NoDup_app in Hnd as [_ [Hdis _]]. intros Hin. apply (Hdis k Hin). left. }
    rewrite IH.
    + rewrite assign_keys_fresh by assumption. rewrite <- app_assoc. reflexivity.
    + rewrite assign_keys_fresh by assumption. rewrite <- app_assoc. exact Hnd.
    + exact Hp.
Qed.

Lemma entries_keys entries cw :
  entries.*1 ⊆ cw.*1 -> (fold_left entryWidths entries cw).*1 = cw.*1.
Proof.
  revert cw. induction entries as [|[k v] entries IH]; intros cw Hsub; [reflexivity|].
  cbn [fold_left]. assert (Hk : (entryWidths cw (k, v)).*1 = cw.*1).
  { unfold entryWidths. apply assign_keys_known. apply Hsub. left. }
  rewrite IH; [exact Hk|]. rewrite Hk. intros x Hx. apply Hsub. right. exact Hx.
Qed.

Lemma values_of_keys (cw : widths) (f : jsstring -> width) :
  NoDup cw.*1 ->
  (forall key, key ∈ cw.*1 -> own cw key = Some (f key)) ->
  cw.*2 = f <$> cw.*1.
Proof.
  induction cw as [|[k v] cw IH]; intros Hnd Hown; [reflexivity|].
  cbn [fmap list_fmap fst snd] in *. apply NoDup_cons in Hnd as [Hk Hnd].
  f_equal.
  - specialize (Hown k (list_elem_of_here _ _)). simpl in Hown.
    rewrite bool_decide_eq_true_2 in Hown by reflexivity. congruence.
  - apply IH; [exact Hnd|]. intros key Hin.
    specialize (Hown key (list_elem_of_further _ _ _ Hin)). simpl in Hown.
    rewrite bool_decide_eq_false_2 in Hown; [exact Hown|].
    intros ->. contradiction.
Qed.

Lemma Object_values_named (cw : widths) :
  Forall (fun key => arrayIndex key = None) cw.*1 -> Object_values cw = cw.*2.
Proof.
  intros Hnamed. unfold Object_values.
  assert (H1 : foldr (fun kw sorted =>
                 match arrayIndex kw.1 with
                 | Some i => insertIndexed i kw.2 sorted
                 | None => sorted
                 end) [] cw = []).
  { induction cw as [|[k v] cw IH]; [reflexivity|].
    cbn [foldr fmap list_fmap fst] in *. apply Forall_cons in Hnamed as [Hk Hnamed].
    rewrite Hk. apply IH. exact Hnamed. }
  assert (H2 : List.filter (fun kw => bool_decide (arrayIndex kw.1 = None)) cw = cw).
  { clear H1. induction cw as [|[k v] cw IH]; [reflexivity|].
    cbn [List.filter fmap list_fmap fst] in *. apply Forall_cons in Hnamed as [Hk Hnamed].
    rewrite bool_decide_eq_true_2 by exact Hk. f_equal. apply IH. exact Hnamed. }
  rewrite H1, H2. reflexivity.
Qed.

(** When the rows have the columns of the first row, and no header is
    [__proto__] or an array index, [worksheet['!cols']] has one width per
    column, in the order of the header: the wider of the header and the
    widest sampled cell, plus 2, and never more than 50. *)
Theorem cols_follow_the_header (first : row) (rest : list row) :
  NoDup first.*1 ->
  Forall (fun key => key <> js "__proto__" /\ arrayIndex key = None) first.*1 ->
  (forall r : row, r ∈ rest -> r.*1 ⊆ first.*1) ->
  cols (first :: rest) =
    (fun key => Width (Nat.min (Nat.max (length key)
                                  (widest key (take 100 (first :: rest))) + 2) 50))
    <$> first.*1
  /\ Forall (fun w => exists n, w = Width n /\ 2 <= n <= 50) (cols (first :: rest)).
Proof.
  intros Hnd Hkeys Hrows.
  assert (Hproto : Forall (fun key => key <> js "__proto__") first.*1).
  { eapply Forall_impl; [exact Hkeys|]. intros k [H _]. exact H. }
  assert (Hnamed : Forall (fun key => arrayIndex key = None) first.*1).
  { eapply Forall_impl; [exact Hkeys|]. intros k [_ H]. exact H. }
  assert (Hk : (columnWidths (first :: rest)).*1 = first.*1).
  { rewrite columnWidths_entries. rewrite entries_keys.
    - exact (header_keys first.*1 [] Hnd Hproto).
    - rewrite (header_keys first.*1 [] Hnd Hproto). cbn [fmap list_fmap app].
      intros k Hin. apply list_elem_of_fmap in Hin as [[k' v] [-> Hin]].
      apply list_elem_of_In, in_concat in Hin as [r [Hr Hin]].
      apply list_elem_of_In in Hr, Hin.
      apply elem_of_take in Hr as [i [Hr _]]. apply list_elem_of_lookup_2 in Hr.
      apply elem_of_cons in Hr as [->|Hr].
      + apply list_elem_of_fmap. exists (k', v). split; [reflexivity|exact Hin].
      + apply (Hrows r Hr). apply list_elem_of_fmap. exists (k', v).
        split; [reflexivity|exact Hin]. }
  assert (Hcols : cols (first :: rest) =
    (fun key => Width (Nat.min (Nat.max (length key)
                                  (widest key (take 100 (first :: rest))) + 2) 50))
    <$> first.*1).
  { unfold cols. rewrite Object_values_named by (rewrite Hk; exact Hnamed).
    rewrite (values_of_keys _ (fun key => Width (Nat.max (length key)
                                  (widest key (take 100 (first :: rest)))))).
    - rewrite Hk, <- list_fmap_compose. reflexivity.
    - rewrite Hk. exact Hnd.
    - rewrite Hk. intros key Hin.
      apply own_header_column; [|exact Hin].
      rewrite Forall_forall in Hproto. apply Hproto. exact Hin. }
  split; [exact Hcols|]. rewrite Hcols. apply Forall_fmap, Forall_forall.
  intros key _. simpl. eexists. split; [reflexivity|]. lia.
Qed.

End SheetFacts.

(** ** The loop over a directory *)

Section CliFacts.

Import Xlsx Cli.

Local Open Scope string_scope.

Context {fs : FileSystem} {directory : Directory}.

Variable convertCsvToExcel : string -> string -> bool.

Lemma substring_all s : substring 0 (String.length s) s = s.
Proof. induction s as [|a s IH]; [reflexivity|]. simpl. rewrite IH. reflexivity. Qed.

Lemma substring_append pre suffix :
  substring (String.length pre) (String.length suffix) (pre +:+ suffix) = suffix.
Proof. induction pre as [|a pre IH]; [apply substring_all|exact IH]. Qed.

Lemma string_length_append (a b : string) :
  String.length (a +:+ b) = (String.length a + String.length b)%nat.
Proof. induction a as [|x a IH]; [reflexivity|]. simpl. rewrite IH. reflexivity. Qed.

Lemma substring_split s m :
  (m <= String.length s)%nat ->
  s = substring 0 m s +:+ substring m (String.length s - m) s.
Proof.
  revert m. induction s as [|a s IH]; intros m Hm.
  - destruct m; reflexivity.
  - destruct m as [|m].
    + simpl. rewrite substring_all. reflexivity.
    + simpl in Hm.
      transitivity (String a (substring 0 m s +:+ substring m (String.length s - m) s));
        [f_equal; apply IH; lia|reflexivity].
Qed.

Lemma endsWith_spec suffix s :
  endsWith suffix s = true <-> exists pre, s = pre +:+ suffix.
Proof.
  unfold endsWith. rewrite andb_true_iff, Nat.leb_le, String.eqb_eq. split.
  - intros [Hle Hs]. exists (substring 0 (String.length s - String.length suffix) s).
    pose proof (substring_split s (String.length s - String.length suffix)) as H.
    replace (String.length s - (String.length s - String.length suffix))%nat
      with (String.length suffix) in H by lia.
    rewrite Hs in H. apply H. lia.
  - intros [pre ->]. rewrite string_length_append. split; [lia|].
    replace (String.length pre + String.length suffix - String.length suffix)%nat
      with (String.length pre) by lia.
    apply substring_append.
Qed.

Lemma toLowerCase_append a b :
  Label.toLowerCase (a +:+ b) = Label.toLowerCase a +:+ Label.toLowerCase b.
Proof. induction a as [|x a IH]; [reflexivity|]. simpl. rewrite IH. reflexivity. Qed.

Lemma toLowerCase_split s a b :
  Label.toLowerCase s = a +:+ b ->
  exists s1 s2, s = s1 +:+ s2 /\ Label.toLowerCase s1 = a /\ Label.toLowerCase s2 = b.
Proof.
  revert s. induction a as [|x a IH]; intros s H.
  - exists "", s. repeat split. exact H.
  - destruct s as [|y s]; [discriminate|]. simpl in H. injection H as Hx H.
    destruct (IH s H) as [s1 [s2 [-> [H1 H2]]]].
    exists (String y s1), s2. repeat split; [|exact H2]. simpl. rewrite Hx, H1. reflexivity.
Qed.

Lemma isCsvFile_spec file :
  isCsvFile file = true <->
  exists stem ext, file = stem +:+ ext /\ Label.toLowerCase ext = ".csv".
Proof.
  unfold isCsvFile. rewrite endsWith_spec. split.
  - intros [pre H]. apply toLowerCase_split in H as [s1 [s2 [-> [_ H2]]]]. eauto.
  - intros [stem [ext [-> H]]]. exists (Label.toLowerCase stem).
    rewrite toLowerCase_append, H. reflexivity.
Qed.

Lemma processFile_loop inputDir outputDir csvFiles results :
  fold_left (Cli.processFile convertCsvToExcel inputDir outputDir) csvFiles results =
  {| success := success results
                + length (List.filter (converts convertCsvToExcel inputDir outputDir) csvFiles);
     failed := failed results
               + length (List.filter (fun f => negb (converts convertCsvToExcel inputDir outputDir f)) csvFiles);
     total := total results;
     failedFiles := failedFiles results
                    ++ List.filter (fun f => negb (converts convertCsvToExcel inputDir outputDir f)) csvFiles |}.
Proof.
  revert results. induction csvFiles as [|f csvFiles IH]; intros results.
  - simpl. rewrite !Nat.add_0_r, app_nil_r. destruct results; reflexivity.
  - cbn [fold_left List.filter]. rewrite IH. unfold Cli.processFile, converts.
    destruct (convertCsvToExcel _ _); simpl; f_equal; try lia.
    rewrite <- app_assoc. reflexivity.
Qed.

(** The summary of [processDirectory] is about the names of the listing
    that end in ".csv" in any letter case, in the order of the listing:
    there is at least one, [total] counts them, [success] those that were
    converted, and [failedFiles] lists, in order, those that were not. *)
Theorem processDirectory_summary (inputDir outputDir : string) (results : stats) :
  Cli.processDirectory convertCsvToExcel inputDir outputDir = Some results ->
  exists files,
    readdirSync inputDir = Some files
    /\ (forall file, file ∈ List.filter isCsvFile files <->
          file ∈ files /\ exists stem ext,
            file = stem +:+ ext /\ Label.toLowerCase ext = ".csv")
    /\ 0 < total results
    /\ total results = length (List.filter isCsvFile files)
    /\ success results + failed results = total results
    /\ success results
       = length (List.filter (converts convertCsvToExcel inputDir outputDir) (List.filter isCsvFile files))
    /\ failed results = length (failedFiles results)
    /\ failedFiles results
       = List.filter (fun f => negb (converts convertCsvToExcel inputDir outputDir f))
                     (List.filter isCsvFile files).
Proof.
  unfold Cli.processDirectory.
  destruct (existsSync outputDir || mkdirSync outputDir); [|discriminate].
  destruct (readdirSync inputDir) as [files|]; [|discriminate].
  destruct (Nat.eqb_spec (length (List.filter isCsvFile files)) 0) as [|Hne];
    [discriminate|].
  rewrite processFile_loop. intros [= <-]. exists files. simpl.
  split; [reflexivity|]. split.
  { intros file. rewrite <- isCsvFile_spec, !list_elem_of_In, filter_In. reflexivity. }
  repeat split; try lia.
  remember (List.filter isCsvFile files) as csvFiles. clear.
  induction csvFiles as [|f csvFiles IH]; [reflexivity|].
  cbn [List.filter]. destruct (converts convertCsvToExcel inputDir outputDir f); simpl; lia.
Qed.

End CliFacts.

(** ** The CSV to JSON script *)

Section JsonFacts.

Import Xlsx2 Json.

Context {codec : Codec} {detector : Detector} {fs : FileSystem}
        {node : NodeBuffer} {parser : Parser} {json : JsonWriter}.

Lemma cleaned_blank cls s :
  trim (removeAll cls s) = [] <->
  Forall (fun c => cls c = true \/ isWhiteSpace c = true) s.
Proof.
  rewrite trim_empty. split; [|apply removeAll_blank].
  induction s as [|c s IH]; intros H; [constructor|].
  simpl in H. destruct (cls c) eqn:Ec.
  - constructor; [left; exact Ec|apply IH; exact H].
  - apply Forall_cons in H as [Hc H]. constructor; [right; exact Hc|apply IH; exact H].
Qed.

Lemma nonEmpty_cleanField value : nonEmpty (cleanField value) = true <-> filled value.
Proof.
  destruct value as [| | |s]; simpl; try (split; [trivial|reflexivity]).
  - split; [discriminate|contradiction].
  - destruct (trim (removeAll controlChar s)) as [|c t] eqn:Et.
    + split; [discriminate|]. intros Hex. exfalso.
      apply cleaned_blank in Et. rewrite Forall_forall in Et.
      apply Exists_exists in Hex as [c [Hc [H1 H2]]].
      destruct (Et c Hc) as [H|H]; congruence.
    + split; [|reflexivity]. intros _.
      destruct (decide (Forall (fun c => controlChar c = true \/ isWhiteSpace c = true) s))
        as [Hall|Hnot].
      * apply cleaned_blank in Hall. rewrite Hall in Et. discriminate.
      * apply not_Forall_Exists in Hnot; [|intros x; apply _].
        eapply Exists_impl; [exact Hnot|]. simpl. intros x Hx.
        destruct (controlChar x), (isWhiteSpace x); try (exfalso; apply Hx; auto; fail).
        split; reflexivity.
Qed.

(** The JSON script keeps a record exactly when one of its fields is
    filled: not null and, for a string, holding a code unit that is
    neither removed as a control character nor white space. *)
Theorem record_is_kept_iff_a_field_is_filled (record : jsrecord) :
  validRecord (on_record record) = true <->
  exists key value, record !! key = Some value /\ filled value.
Proof.
  unfold validRecord, on_record. rewrite existsb_exists. split.
  - intros [v [Hin Hv]]. apply list_elem_of_In, list_elem_of_fmap in Hin
      as [[key v'] [-> Hin]].
    apply elem_of_map_to_list in Hin. rewrite lookup_fmap in Hin.
    destruct (record !! key) as [value|] eqn:Ek; [|discriminate].
    injection Hin as <-. exists key, value. split; [exact Ek|].
    apply nonEmpty_cleanField. exact Hv.
  - intros [key [value [Hk Hf]]]. exists (cleanField value). split.
    + apply list_elem_of_In, list_elem_of_fmap. exists (key, cleanField value).
      split; [reflexivity|]. apply elem_of_map_to_list.
      rewrite lookup_fmap, Hk. reflexivity.
    + apply nonEmpty_cleanField. exact Hf.
Qed.

(** Whatever the detector answers, [readCSVWithEncoding] decodes the file
    with one of three decoders only: Node's or iconv-lite's UTF-8, gbk, or
    big5; any other label is read as UTF-8.  The text it returns holds no
    NUL. *)
Theorem readCSVWithEncoding_decoders (filePath : string) (text : jsstring) :
  readCSVWithEncoding filePath = Some text ->
  exists buffer content,
    readFileSync filePath = Some buffer
    /\ text = removeAll (N.eqb 0) (replaceCRLF content)
    /\ (content = toString_utf8 buffer
        \/ exists enc, enc ∈ ["utf8"; "gbk"; "big5"]%string
                       /\ iconv_decode buffer enc = Some content)
    /\ Forall (fun c => c <> 0%N) text.
Proof.
  unfold readCSVWithEncoding.
  destruct (readFileSync filePath) as [buffer|]; [|discriminate]. simpl.
  destruct (detectFileEncoding filePath) as [[label|]|]; try discriminate. simpl.
  destruct (decodeDetected buffer (Label.toLowerCase label)) as [content|] eqn:Ed;
    [|discriminate].
  simpl. intros [= <-]. exists buffer, content. split; [reflexivity|].
  split; [reflexivity|]. split.
  - unfold decodeDetected in Ed.
    destruct (_ || _)%bool; [injection Ed as <-; left; reflexivity|].
    right. destruct (_ || _)%bool; [exists "gbk"%string|
      destruct (String.eqb _ _); [exists "big5"%string|exists "utf8"%string]];
      (split; [|exact Ed]); set_solver.
  - eapply Forall_impl; [apply removeAll_clean|]. simpl. intros c Hc ->. discriminate Hc.
Qed.

End JsonFacts.

(** ** Cleaning twice *)

Section CleaningFacts.

Import Xlsx2.

Lemma cleanField_idem value : cleanField (cleanField value) = cleanField value.
Proof.
  destruct value as [| | |s]; try reflexivity. simpl. f_equal.
  apply removeAll_trim_idem.
Qed.

Lemma cleanField_record_idem (record : jsrecord) :
  cleanField <$> (cleanField <$> record) = cleanField <$> record.
Proof.
  apply map_eq. intros key. rewrite !lookup_fmap.
  destruct (record !! key) as [v|]; [|reflexivity]. simpl. rewrite cleanField_idem.
  reflexivity.
Qed.

(** Cleaning the records of 2xlsx2.js is idempotent: a record that went
    through [on_record] comes back unchanged from a second pass, in the
    JSON script and, when the patient filter kept it, in the workbook
    script. *)
Theorem on_record_is_idempotent (record : jsrecord) :
  Json.on_record (Json.on_record record) = Json.on_record record
  /\ (forall kept, on_record record = Some kept -> on_record kept = Some kept).
Proof.
  split; [apply cleanField_record_idem|].
  intros kept. unfold on_record.
  destruct ((cleanField <$> record) !! js "PATIENT_ID") as [id|] eqn:Eid; [|discriminate].
  destruct (truthy id && includes allowedPatientIds id) eqn:Ek; [|discriminate].
  intros [= <-]. rewrite cleanField_record_idem, Eid, Ek. reflexivity.
Qed.

End CleaningFacts.

(** ** The scripts on concrete inputs *)

Section Examples.

Import JS Xlsx.

Local Open Scope string_scope.

(** C1 fails as stated, in three ways.  A text with invalid characters
    for exactly a tenth of its length is kept although gbk decodes the
    buffer without any.  Where the scan does run, the first alternative
    with fewer invalid characters is taken, here gbk with one, although
    shift-jis has none.  And the comparison is between counts, not
    between ratios: the text with one invalid character out of two is
    kept although shift-jis has one out of three. *)
Lemma scan_counterexample :
  (@iconv_decode Sample.codec Sample.tenPercentBuffer "utf8"
     = Some ([0xFFFD; 0xFFFD]%N ++ repeat 0x41%N 18)%list
   /\ @iconv_decode Sample.codec Sample.tenPercentBuffer "gbk"
     = Some (0x4E2D :: repeat 0x41 18)%N
   /\ @decodeBuffer Sample.codec Sample.tenPercentBuffer "utf8"
     = Returned ([0xFFFD; 0xFFFD]%N ++ repeat 0x41%N 18)%list)
  /\ (@iconv_decode Sample.codec Sample.danglingLeadBuffer "utf8"
        = Some [0xFFFD; 0xFFFD; 0xFFFD]%N
      /\ @iconv_decode Sample.codec Sample.danglingLeadBuffer "gbk"
        = Some [0x4E2D; 0xFFFD]%N
      /\ @iconv_decode Sample.codec Sample.danglingLeadBuffer "shift-jis"
        = Some [0xFF96; 0xFF90; 0xFF96]%N
      /\ @decodeBuffer Sample.codec Sample.danglingLeadBuffer "utf8"
        = Returned [0x4E2D; 0xFFFD]%N)
  /\ (@iconv_decode Sample.codec Sample.hiraganaBuffer "utf8"
        = Some [0x01; 0x3061]%N
      /\ @iconv_decode Sample.codec Sample.hiraganaBuffer "shift-jis"
        = Some [0x01; 0x7E3A; 0xFF61]%N
      /\ @decodeBuffer Sample.codec Sample.hiraganaBuffer "utf8"
        = Returned [0x01; 0x3061]%N).
Proof. repeat split; vm_compute; reflexivity. Qed.

Lemma scan_takes_first_better_alternative_witness :
  @iconv_decode Sample.codec Sample.danglingLeadBuffer "utf8"
    = Some [0xFFFD; 0xFFFD; 0xFFFD]%N
  /\ @decodeBuffer Sample.codec Sample.danglingLeadBuffer "utf8"
    = Returned [0x4E2D; 0xFFFD]%N.
Proof.
  assert (H : @iconv_decode Sample.codec Sample.danglingLeadBuffer "utf8"
              = Some [0xFFFD; 0xFFFD; 0xFFFD]%N) by reflexivity.
  split; [exact H|].
  destruct (@scan_takes_first_better_alternative Sample.codec _ _ _ H)
    as [_ Hscan]; [reflexivity|].
  apply Hscan.
  - vm_compute. lia.
  - exists [], "gbk", ["big5"; "shift-jis"].
    split; [reflexivity|]. split; [reflexivity|]. split; [vm_compute; lia|].
    intros e t He. inversion He.
Defined.

(** C2 fails as stated: the two bytes FE FF are the UTF-16BE signature
    and the detector is not confident, yet utf8 is selected, because the
    signatures are only looked for in buffers of three bytes or more.
    And when the detector throws, utf8 is selected even for a buffer that
    begins with a signature. *)
Lemma detection_counterexample :
  @jschardet_detect Sample.undecided [xfe; xff]
    = Returned (Some {| encoding := None; confidence := S754_zero false |})
  /\ [xfe; xff] `prefix_of` [xfe; xff]
  /\ @detectBufferEncoding Sample.codec Sample.undecided [xfe; xff] = "utf8"
  /\ @detectBufferEncoding Sample.codec Sample.undecided [xfe; xff; x00; x41]
     = "utf16be"
  /\ @detectBufferEncoding Sample.codec (Sample.answering (Thrown DetectorError))
       [xfe; xff; x00; x41] = "utf8".
Proof.
  split; [reflexivity|]. split; [exists []; reflexivity|].
  repeat split; vm_compute; reflexivity.
Qed.

(** C3 fails as stated: a buffer of exactly two bytes FE FF or FF FE
    yields no match. *)
Lemma sniffBOM_counterexample :
  sniffBOM [xfe; xff] = None /\ sniffBOM [xff; xfe] = None
  /\ sniffBOM [xfe; xff; x00] = Some "utf16be"
  /\ sniffBOM [xff; xfe; x41] = Some "utf16le".
Proof. repeat split; reflexivity. Qed.

(** C4 fails as stated: a blank field is normalised to the empty string,
    and normalising that gives null; and a cell that is already null or a
    number cannot be normalised at all. *)
Lemma mapValues_twice_counterexample :
  @Normalizer.mapValues Sample.engine (js "name") (js " ") = VString []
  /\ @Normalizer.mapValuesCell Sample.engine (js "name") (VString []) = Returned VNull
  /\ @Normalizer.mapValues Sample.engine (js "name") (js "") = VNull
  /\ @Normalizer.mapValuesCell Sample.engine (js "name") VNull = Thrown TypeError
  /\ @Normalizer.mapValues Sample.engine (js "age") (js "41")
     = VNumber (S754_finite false 5770237022568448 (-47))
  /\ @Normalizer.mapValuesCell Sample.engine (js "age")
       (VNumber (S754_finite false 5770237022568448 (-47))) = Thrown TypeError.
Proof. repeat split; vm_compute; reflexivity. Qed.

Lemma mapValues_twice_witness :
  @Normalizer.mapValues Sample.engine (js "name") (js " Li  ") = VString (js "Li")
  /\ @Normalizer.mapValuesCell Sample.engine (js "name")
       (@Normalizer.mapValues Sample.engine (js "name") (js " Li  "))
     = Returned (VString (js "Li")).
Proof.
  assert (H : @Normalizer.mapValues Sample.engine (js "name") (js " Li  ")
              = VString (js "Li")) by reflexivity.
  split; [exact H|].
  exact (@mapValues_twice Sample.engine (js "name") (js " Li  ") (js "Li") H).
Defined.

Lemma empty_field_becomes_null_witness :
  @Normalizer.mapRow Sample.engine {[ js "name" := [] ]} !! js "name" = Some VNull.
Proof.
  apply (@empty_field_becomes_null Sample.engine {[ js "name" := [] ]} (js "name")).
  apply lookup_singleton_eq.
Defined.

(** C6 fails as stated: a tab or a line feed inside a value is removed
    by 2xlsx.js, and 2xlsx2.js removes the tab too. *)
Lemma cleaning_counterexample :
  Normalizer.cleanValue [0x61; 0x09; 0x62]%N = [0x61; 0x62]%N
  /\ Normalizer.cleanValue [0x61; 0x0A; 0x62]%N = [0x61; 0x62]%N
  /\ Normalizer.cleanValue [0x61; 0x0D; 0x62]%N = [0x61; 0x62]%N
  /\ Xlsx2.cleanField (VString [0x61; 0x09; 0x62]%N) = VString [0x61; 0x62]%N
  /\ Xlsx2.cleanField (VString [0x61; 0x0D; 0x62]%N) = VString [0x61; 0x62]%N
  /\ Xlsx2.cleanField (VString [0x61; 0x0A; 0x62]%N) = VString [0x61; 0x0A; 0x62]%N.
Proof. repeat split; reflexivity. Qed.

Lemma blank_field_becomes_empty_string_witness :
  @Normalizer.mapValues Sample.engine (js "name") [0x01; 0x20; 0x09]%N = VString [].
Proof.
  apply (@blank_field_becomes_empty_string Sample.engine).
  - discriminate.
  - constructor; [left; reflexivity|].
    constructor; [right; reflexivity|].
    constructor; [left; reflexivity|].
    constructor.
Defined.

(** A label the codec does not know makes the first decode throw; utf8,
    the first fallback, then decodes.  Under a codec that rejects the
    buffer outright every fallback throws, and in a directory of two
    files only that file fails. *)
Lemma fallbacks_are_tried_in_order_witness :
  @decodeBuffer Sample.codec Sample.hiraganaBuffer "iso-2022-jp"
    = Returned [0x01; 0x3061]%N
  /\ @decodeBuffer (Sample.rejecting Sample.gbkBuffer) Sample.gbkBuffer "utf8"
    = Thrown (ReadOrDecodeFailed AllEncodingsFailed)
  /\ @processDirectory (Sample.rejecting Sample.gbkBuffer) Sample.undecided
       (Sample.files [("in/a.csv", Sample.gbkBuffer);
                      ("in/b.csv", Sample.hiraganaBuffer)])
       Sample.sink "in" "out" ["a.csv"; "b.csv"]
     = {| success := 1; failed := 1; total := 2; failedFiles := ["a.csv"] |}.
Proof.
  split; [|split].
  - destruct (@fallbacks_are_tried_in_order Sample.codec Sample.undecided
                (Sample.files []) Sample.sink Sample.hiraganaBuffer "iso-2022-jp"
                eq_refl) as [_ [Hfirst _]].
    apply Hfirst. exists [], "utf8", ["gbk"; "big5"; "shift-jis"; "cp1252"].
    split; [reflexivity|]. split; [discriminate|]. split; [reflexivity|].
    intros e He. inversion He.
  - destruct (@fallbacks_are_tried_in_order (Sample.rejecting Sample.gbkBuffer)
                Sample.undecided (Sample.files []) Sample.sink Sample.gbkBuffer
                "utf8" eq_refl) as [_ [_ Hnone]].
    apply Hnone. intros e _ _. reflexivity.
  - destruct (@fallbacks_are_tried_in_order (Sample.rejecting Sample.gbkBuffer)
                Sample.undecided
                (Sample.files [("in/a.csv", Sample.gbkBuffer);
                               ("in/b.csv", Sample.hiraganaBuffer)])
                Sample.sink Sample.gbkBuffer "utf8" eq_refl) as [_ [_ Hnone]].
    destruct Hnone as [_ Hdir]; [intros e _ _; reflexivity|].
    etransitivity; [exact (Hdir "in" "out" [] "a.csv" ["b.csv"] eq_refl eq_refl)|].
    vm_compute. reflexivity.
Defined.

(** The two bytes D6 D0 under a label the codec does not know: the utf8
    fallback gives two replacement characters, and they are returned;
    had utf8 been the selected encoding, the scan would have replaced
    them by the gbk decoding. *)
Lemma fallback_text_is_returned_unscanned_witness :
  @decodeBuffer Sample.codec Sample.gbkBuffer "iso-2022-jp"
    = Returned [0xFFFD; 0xFFFD]%N
  /\ @decodeBuffer Sample.codec Sample.gbkBuffer "utf8" = Returned [0x4E2D]%N.
Proof.
  assert (Hfirst : @firstFallback Sample.codec Sample.gbkBuffer "iso-2022-jp"
                     [0xFFFD; 0xFFFD]%N).
  { exists [], "utf8", ["gbk"; "big5"; "shift-jis"; "cp1252"].
    split; [reflexivity|]. split; [discriminate|]. split; [reflexivity|].
    intros e He. inversion He. }
  destruct (@fallback_text_is_returned_unscanned Sample.codec Sample.gbkBuffer
              "iso-2022-jp" [0xFFFD; 0xFFFD]%N eq_refl Hfirst) as [H1 H2].
  split; [exact H1|]. rewrite (H2 "utf8" eq_refl). reflexivity.
Defined.

(** The two sample records: the first is dropped, the second is kept
    with its name cleaned. *)
Lemma filter_keeps_only_allowed_patient_witness :
  Xlsx2.on_record Sample.otherPatient = None
  /\ (Xlsx2.on_record Sample.allowedPatient ≫= (fun kept => kept !! js "NAME"))
     = Some (VString (js "Li"))
  /\ length (Xlsx2.parseCSVContent [Sample.otherPatient; Sample.allowedPatient]) = 1.
Proof.
  destruct (filter_keeps_only_allowed_patient Sample.otherPatient)
    as [_ [Hdrop _]].
  destruct (filter_keeps_only_allowed_patient Sample.allowedPatient)
    as [_ [_ Hkeep]].
  destruct (Hdrop eq_refl) as [Hnone _].
  destruct (Hkeep eq_refl) as [kept [Hsome [_ [_ [Hfields _]]]]].
  split; [exact Hnone|]. split.
  - rewrite Hsome. simpl. rewrite Hfields. reflexivity.
  - unfold Xlsx2.parseCSVContent. simpl. rewrite Hnone, Hsome. reflexivity.
Defined.

Lemma threshold_is_one_tenth_witness :
  exceedsThreshold 2 20 = false /\ exceedsThreshold 3 20 = true.
Proof.
  split.
  - apply not_true_iff_false. intros H.
    apply (threshold_is_one_tenth 2 20) in H; [lia | reflexivity | lia].
  - apply (threshold_is_one_tenth 3 20); [reflexivity | lia | lia].
Defined.

Lemma labels_with_gb_become_gbk_witness :
  normalizeLabel "GB2312" = Returned "gbk" /\ normalizeLabel "HZ-GB-2312" = Returned "gbk".
Proof.
  split; apply labels_with_gb_become_gbk; reflexivity.
Defined.

Lemma mapValues_strings_are_clean_witness :
  trim [0x4C; 0x69]%N = [0x4C; 0x69]%N.
Proof.
  apply (@mapValues_strings_are_clean Sample.engine (js "name")
           [0x20; 0x4C; 0x07; 0x69; 0x09]%N [0x4C; 0x69]%N).
  reflexivity.
Defined.

Lemma column_width_is_widest_cell_witness :
  @Sheet.own (@Sheet.columnWidths Sample.formatter [Sample.shortRow; Sample.longRow])
     (js "NAME") = Some (Sheet.Width 9)
  /\ @Sheet.own (@Sheet.columnWidths Sample.formatter [Sample.shortRow; Sample.longRow])
       (js "NOTE") = Some (Sheet.Width 50).
Proof.
  split.
  - destruct (@column_width_is_widest_cell Sample.formatter Sample.shortRow
                [Sample.longRow] (js "NAME")) as [H _]; [discriminate|].
    rewrite H; [reflexivity|]. left.
  - destruct (@column_width_is_widest_cell Sample.formatter Sample.shortRow
                [Sample.longRow] (js "NOTE")) as [H _]; [discriminate|].
    rewrite H; [reflexivity|]. right. left.
Defined.

Lemma cols_follow_the_header_witness :
  @Sheet.cols Sample.formatter [Sample.shortRow; Sample.longRow]
  = [Sheet.Width 11; Sheet.Width 50].
Proof.
  destruct (@cols_follow_the_header Sample.formatter Sample.shortRow [Sample.longRow])
    as [H _].
  - compute_done.
  - compute_done.
  - intros r Hr. apply list_elem_of_singleton in Hr as ->. compute_done.
  - rewrite H. reflexivity.
Defined.

Lemma processDirectory_summary_witness :
  @Cli.processDirectory
     (Sample.files [("in/a.csv", Sample.hiraganaBuffer); ("in/B.CSV", Sample.gbkBuffer)])
     (Sample.listing ["a.csv"; "notes.txt"; "B.CSV"])
     (@convertCsvToExcel (Sample.rejecting Sample.gbkBuffer) Sample.undecided
        (Sample.files [("in/a.csv", Sample.hiraganaBuffer); ("in/B.CSV", Sample.gbkBuffer)])
        Sample.sink)
     "in" "out"
  = Some {| success := 1; failed := 1; total := 2; failedFiles := ["B.CSV"] |}
  /\ length (List.filter Cli.isCsvFile ["a.csv"; "notes.txt"; "B.CSV"]) = 2.
Proof.
  assert (Hrun : @Cli.processDirectory
     (Sample.files [("in/a.csv", Sample.hiraganaBuffer); ("in/B.CSV", Sample.gbkBuffer)])
     (Sample.listing ["a.csv"; "notes.txt"; "B.CSV"])
     (@convertCsvToExcel (Sample.rejecting Sample.gbkBuffer) Sample.undecided
        (Sample.files [("in/a.csv", Sample.hiraganaBuffer); ("in/B.CSV", Sample.gbkBuffer)])
        Sample.sink)
     "in" "out"
  = Some {| success := 1; failed := 1; total := 2; failedFiles := ["B.CSV"] |})
    by (vm_compute; reflexivity).
  split; [exact Hrun|].
  destruct (processDirectory_summary _ _ _ _ Hrun) as [files [Hls [_ [_ [Htotal _]]]]].
  injection Hls as <-. symmetry. exact Htotal.
Defined.

Lemma readCSVWithEncoding_decoders_witness :
  @Json.readCSVWithEncoding Sample.codec (Sample.sure "GB2312")
     (Sample.files [("data/a.csv", Sample.gbkBuffer)]) Sample.node "data/a.csv"
  = Some [0x4E2D]%N
  /\ Forall (fun c => c <> 0%N) [0x4E2D]%N.
Proof.
  assert (Hread : @Json.readCSVWithEncoding Sample.codec (Sample.sure "GB2312")
     (Sample.files [("data/a.csv", Sample.gbkBuffer)]) Sample.node "data/a.csv"
  = Some [0x4E2D]%N) by (vm_compute; reflexivity).
  split; [exact Hread|].
  destruct (readCSVWithEncoding_decoders _ _ Hread) as [buffer [content [_ [_ [_ H]]]]].
  exact H.
Defined.

Lemma round_trip_choice_is_decodable_witness :
  @detectBufferEncoding Sample.codec Sample.undecided Sample.gbkBuffer = "gbk"%string
  /\ @decodeBuffer Sample.codec Sample.gbkBuffer "gbk" = Returned [0x4E2D]%N.
Proof.
  destruct (@round_trip_choice_is_decodable Sample.codec Sample.undecided
              Sample.gbkBuffer _ "gbk" eq_refl eq_refl eq_refl eq_refl)
    as [Hdetect [_ [content [Hdec [_ Hscan]]]]].
  split; [exact Hdetect|]. rewrite Hscan.
  injection Hdec as <-. reflexivity.
Defined.

End Examples.
